(** * The array task dispatcher of flytekit ([flytekit/core/map_task.py])

    A shallow embedding of [MapPythonTask]: the index arithmetic of
    [_compute_array_job_index], the two output-interface queries, the
    distributed path [_execute_map_task] and the local path [_raw_execute].

    Python values are an inductive type with the subscripting and [len] of
    the interpreter written out; exceptions are a sum type; the wrapped
    task's [execute] is a field of the task record that threads an explicit
    state, so that the calls it receives are observable. *)

From Stdlib Require Import ZArith String Ascii List.
From stdpp Require Import gmap strings list fin_maps.

Local Open Scope string_scope.
Local Open Scope Z_scope.
Set Warnings "-register-all".

(** ** Python values, exceptions and results *)

Inductive PyVal : Type :=
| VNone
| VInt (z : Z)
| VStr (s : string)
| VList (l : list PyVal)
| VTuple (l : list PyVal).

(** The exception classes the dispatcher can meet: the four built-in ones
    its own subscripts, [len], [int] and [os.environ.get] raise, and
    [UserException] for whatever the wrapped task raises. *)
Inductive PyExn : Type :=
| TypeError
| ValueError
| KeyError
| IndexError
| UserException (what : string).

Inductive result (A : Type) : Type :=
| Ok (a : A)
| Raise (e : PyExn).
Arguments Ok {A} a.
Arguments Raise {A} e.

#[global] Instance result_ret : MRet result := fun _ a => Ok a.
#[global] Instance result_bind : MBind result := fun _ _ f r =>
  match r with
  | Ok a => f a
  | Raise e => Raise e
  end.

#[global] Instance result_fmap : FMap result := fun _ _ f r =>
  match r with
  | Ok a => Ok (f a)
  | Raise e => Raise e
  end.

Definition is_ok {A} (r : result A) : bool :=
  match r with Ok _ => true | Raise _ => false end.

(** [seq[i]] on a list, tuple or string of length [n]: a negative index
    counts from the end, anything outside [-n, n) is an [IndexError]. *)
Definition seq_getitem {A} (l : list A) (i : Z) : result A :=
  let n := Z.of_nat (length l) in
  let j := if i <? 0 then i + n else i in
  if (j <? 0) || (n <=? j) then Raise IndexError
  else match l !! Z.to_nat j with
       | Some a => Ok a
       | None => Raise IndexError
       end.

(** [o[i]] for an integer [i]. *)
Definition py_getitem (o : PyVal) (i : Z) : result PyVal :=
  match o with
  | VList l | VTuple l => seq_getitem l i
  | VStr s => c ← seq_getitem (list_ascii_of_string s) i; Ok (VStr (String c EmptyString))
  | VNone | VInt _ => Raise TypeError
  end.

(** [len(o)]. *)
Definition py_len (o : PyVal) : result nat :=
  match o with
  | VList l | VTuple l => Ok (length l)
  | VStr s => Ok (String.length s)
  | VNone | VInt _ => Raise TypeError
  end.

(** [d[k]] on a keyword dictionary; the key may be [None] (the else branch
    of [any_input_key]), which no keyword dictionary holds. *)
Definition dict_getitem (d : gmap string PyVal) (k : option string) : result PyVal :=
  match k with
  | Some k => match d !! k with
              | Some v => Ok v
              | None => Raise KeyError
              end
  | None => Raise KeyError
  end.

(** ** [int(str)] in base 10

    Optional surrounding white space, an optional sign, then decimal digits
    in which single underscores may separate digits. The parser is exact on
    ASCII strings ([is_ascii]). On other strings [int] also accepts the
    decimal digits and the white space of Unicode, which this parser
    refuses: a statement that relies on a refusal is made for ASCII values.
    The interpreter's optional cap on the number of digits is left out. *)
Module PyInt.

(** Every character of [s] is below 128. *)
Definition is_ascii (s : string) : bool :=
  forallb (λ a, (nat_of_ascii a <? 128)%nat) (list_ascii_of_string s).

Definition is_space (a : ascii) : bool :=
  let n := nat_of_ascii a in
  ((9 <=? n)%nat && (n <=? 13)%nat) || (n =? 32)%nat.

Definition digit_of (a : ascii) : option Z :=
  let n := nat_of_ascii a in
  if (48 <=? n)%nat && (n <=? 57)%nat then Some (Z.of_nat n - 48) else None.

Fixpoint lstrip (l : list ascii) : list ascii :=
  match l with
  | a :: r => if is_space a then lstrip r else l
  | [] => []
  end.

Definition strip (l : list ascii) : list ascii :=
  rev (lstrip (rev (lstrip l))).

(** The digits after the first one; [acc] is the value read so far. *)
Fixpoint digits (acc : Z) (l : list ascii) : option Z :=
  match l with
  | [] => Some acc
  | a :: r =>
      if Ascii.eqb a "_" then
        match r with
        | d :: r' =>
            match digit_of d with
            | Some v => digits (10 * acc + v) r'
            | None => None
            end
        | [] => None
        end
      else
        match digit_of a with
        | Some v => digits (10 * acc + v) r
        | None => None
        end
  end.

Definition unsigned (l : list ascii) : option Z :=
  match l with
  | d :: r =>
      match digit_of d with
      | Some v => digits v r
      | None => None
      end
  | [] => None
  end.

Definition signed (l : list ascii) : option Z :=
  match l with
  | a :: r =>
      if Ascii.eqb a "+" then unsigned r
      else if Ascii.eqb a "-" then Z.opp <$> unsigned r
      else unsigned l
  | [] => None
  end.

Definition parse (s : string) : option Z :=
  signed (strip (list_ascii_of_string s)).

End PyInt.

(** [int(x)] where [x] is a string or [None] (what [os.environ.get]
    returns): [None] is a [TypeError], a string that is no integer literal a
    [ValueError]. *)
Definition py_int (x : option string) : result Z :=
  match x with
  | Some s => match PyInt.parse s with
              | Some z => Ok z
              | None => Raise ValueError
              end
  | None => Raise TypeError
  end.

(** ** The process environment *)

(** [os.environ.get(key)]: a key that is not a string ([None] here) is
    refused with a [TypeError] by the key encoder; a missing key gives
    [None]. *)
Definition environ_get (environ : gmap string string) (key : option string)
  : result (option string) :=
  match key with
  | Some k => Ok (environ !! k)
  | None => Raise TypeError
  end.

(** Truth value of what [os.environ.get] returns: [None] and the empty
    string are false. *)
Definition truthy (x : option string) : bool :=
  match x with
  | Some s => negb (String.eqb s "")
  | None => false
  end.

(** The variable [k], when it is set, holds an ASCII string. *)
Definition ascii_value (environ : gmap string string) (k : string) : Prop :=
  ∀ v, environ !! k = Some v → PyInt.is_ascii v = true.

Definition BATCH_JOB_ARRAY_INDEX_OFFSET : string := "BATCH_JOB_ARRAY_INDEX_OFFSET".
Definition BATCH_JOB_ARRAY_INDEX_VAR_NAME : string := "BATCH_JOB_ARRAY_INDEX_VAR_NAME".

(** [MapPythonTask._compute_array_job_index]. *)
Definition _compute_array_job_index (environ : gmap string string) : result Z :=
  o ← environ_get environ (Some BATCH_JOB_ARRAY_INDEX_OFFSET);
  offset ← (if truthy o
            then o' ← environ_get environ (Some BATCH_JOB_ARRAY_INDEX_OFFSET); py_int o'
            else Ok 0);
  name ← environ_get environ (Some BATCH_JOB_ARRAY_INDEX_VAR_NAME);
  raw ← environ_get environ name;
  index ← py_int raw;
  Ok (offset + index).

(** ** Interfaces *)

(** A Python type annotation: a named type, or [typing.List[T]]. *)
Inductive pytype : Type :=
| PyPrim (name : string)
| PyList (T : pytype).

(** [Interface]: the ordered dictionaries of inputs and of outputs, as
    association lists in declaration order. *)
Record Interface (T : Type) : Type := mkInterface {
  inputs : list (string * T);
  outputs : list (string * T)
}.
Arguments mkInterface {T} _ _.
Arguments inputs {T} _.
Arguments outputs {T} _.

(** [d.keys()], in insertion order. *)
Definition keys {T} (d : list (string * T)) : list string := d.*1.

(** [d[k]] on an interface dictionary. *)
Fixpoint interface_getitem {T} (d : list (string * T)) (k : string) : result T :=
  match d with
  | [] => Raise KeyError
  | (k', t) :: d' => if String.eqb k' k then Ok t else interface_getitem d' k
  end.

(** [d.items() is not None]: a dictionary view is an object, whatever the
    dictionary holds. *)
Definition items_is_not_None {T} (d : list (string * T)) : bool := true.

(** Modelled from the spec: [transform_interface_to_list_interface] of
    [flytekit.core.interface] is not part of the sources at hand; the
    derived interface keeps names and order and replaces each type [T] by
    collection-of-[T]. *)
Definition transform_interface_to_list_interface (i : Interface pytype) : Interface pytype :=
  {| inputs := prod_map id PyList <$> inputs i;
     outputs := prod_map id PyList <$> outputs i |}.

(** ** The ambient context *)

(** [ExecutionState.Mode]; the enumeration is declared in
    [flytekit.core.context_manager], the dispatcher names its first two
    members. *)
Inductive Mode : Type :=
| TASK_EXECUTION
| LOCAL_WORKFLOW_EXECUTION
| LOCAL_TASK_EXECUTION.

#[global] Instance Mode_eq_dec : EqDecision Mode.
Proof. solve_decision. Defined.

Record ExecutionState : Type := { mode : Mode }.
Record FlyteContext : Type := { execution_state : option ExecutionState }.

(** [ctx.execution_state is not None and ctx.execution_state.mode == m]
    (an [ExecutionState] object is always true, so the test without
    [is not None] in [execute] is the same one). *)
Definition in_mode (ctx : FlyteContext) (m : Mode) : bool :=
  match execution_state ctx with
  | Some es => bool_decide (mode es = m)
  | None => false
  end.

(** [range(n)]. *)
Definition range (n : nat) : list Z := Z.of_nat <$> seq 0 n.

(** The body shared by the two loops
    [for k in self.interface.inputs.keys(): d[k] = kwargs[k][i]]:
    [d] grows key by key, the first failing subscript ends the loop. *)
Fixpoint index_inputs (ks : list string) (kwargs : gmap string PyVal) (i : Z)
    (d : gmap string PyVal) : result (gmap string PyVal) :=
  match ks with
  | [] => Ok d
  | k :: ks' =>
      c ← dict_getitem kwargs (Some k);
      v ← py_getitem c i;
      index_inputs ks' kwargs i (<[k := v]> d)
  end.

(** [for x in range(len(outputs)): outputs[x].append(o[x])], [x] being the
    position of the first accumulator of the list. *)
Fixpoint append_outputs (o : PyVal) (x : Z) (outputs : list (list PyVal))
  : result (list (list PyVal)) :=
  match outputs with
  | [] => Ok []
  | acc :: rest =>
      v ← py_getitem o x;
      rest' ← append_outputs o (x + 1) rest;
      Ok ((acc ++ [v])%list :: rest')
  end.

(** ** Tasks *)

Section Dispatcher.

(** The state the wrapped task function reads and writes. *)
Context {S : Type}.

(** [flytekit.models.interface.Variable] and the per-entry step of
    [transform_interface_to_typed_interface] (a type and its description
    to a [Variable]); neither is declared in [map_task.py]. *)
Context {Variable' : Type} (transform_type : pytype → string → Variable').

(** A computation that may change the state and may raise. *)
Definition Exec (A : Type) : Type := S → S * result A.

Definition exec_ret {A} (a : A) : Exec A := λ s, (s, Ok a).

Definition exec_bind {A B} (m : Exec A) (f : A → Exec B) : Exec B :=
  λ s, match m s with
       | (s', Ok a) => f a s'
       | (s', Raise e) => (s', Raise e)
       end.

(** A pure step: the state is untouched. *)
Definition lift {A} (r : result A) : Exec A := λ s, (s, r).

Notation "'do' x <- m ; k" := (exec_bind m (λ x, k))
  (at level 10, x name, m at level 100, k at level 200).

Definition transform_interface_to_typed_interface (i : Interface pytype)
  : Interface Variable' :=
  {| inputs := (λ kv, (kv.1, transform_type kv.2 kv.1)) <$> inputs i;
     outputs := (λ kv, (kv.1, transform_type kv.2 kv.1)) <$> outputs i |}.

(** [PythonFunctionTask], as far as the dispatcher uses it: its native
    interface and [execute], which calls the task function on keyword
    arguments. *)
Record PythonFunctionTask : Type := {
  python_interface : Interface pytype;
  task_execute : gmap string PyVal → Exec PyVal
}.

(** [task.interface], the typed interface [PythonTask.__init__] derives. *)
Definition task_interface (t : PythonFunctionTask) : Interface Variable' :=
  transform_interface_to_typed_interface (python_interface t).

Record MapPythonTask : Type := {
  _run_task : PythonFunctionTask;
  _max_concurrency : option Z;
  _array_task_interface : Interface pytype;
  _python_interface : Interface pytype
}.

Definition interface (self : MapPythonTask) : Interface Variable' :=
  transform_interface_to_typed_interface (_python_interface self).

(** [MapPythonTask.__init__]. *)
Definition MapPythonTask_init (python_function_task : PythonFunctionTask)
    (concurrency : option Z) : MapPythonTask :=
  let collection_interface :=
    transform_interface_to_list_interface (python_interface python_function_task) in
  {| _run_task := python_function_task;
     _max_concurrency := concurrency;
     _array_task_interface := python_interface python_function_task;
     _python_interface := collection_interface |}.

(** [MapPythonTask._outputs_interface]. *)
Definition _outputs_interface (self : MapPythonTask) (ctx : FlyteContext)
  : list (string * Variable') :=
  if in_mode ctx LOCAL_WORKFLOW_EXECUTION
  then outputs (interface self)
  else outputs (task_interface (_run_task self)).

(** [MapPythonTask.get_type_for_output_var]. *)
Definition get_type_for_output_var (self : MapPythonTask) (ctx : FlyteContext)
    (k : string) (v : PyVal) : result pytype :=
  if in_mode ctx LOCAL_WORKFLOW_EXECUTION
  then interface_getitem (outputs (_python_interface self)) k
  else interface_getitem (outputs (python_interface (_run_task self))) k.

(** [MapPythonTask._execute_map_task]. *)
Definition _execute_map_task (self : MapPythonTask) (environ : gmap string string)
    (kwargs : gmap string PyVal) : Exec PyVal :=
  do task_index <- lift (_compute_array_job_index environ);
  do map_task_inputs <-
    lift (index_inputs (keys (inputs (interface self))) kwargs task_index ∅);
  task_execute (_run_task self) map_task_inputs.

(** The loop [for i in range(...)] of [_raw_execute], over the positions
    still to visit. *)
Fixpoint raw_execute_loop (self : MapPythonTask) (kwargs : gmap string PyVal)
    (outputs_expected : bool) (positions : list Z) (outs : list (list PyVal))
  : Exec (list (list PyVal)) :=
  match positions with
  | [] => exec_ret outs
  | i :: positions' =>
      do single_instance_inputs <-
        lift (index_inputs (keys (inputs (interface self))) kwargs i ∅);
      do o <- task_execute (_run_task self) single_instance_inputs;
      do outs' <- lift (if outputs_expected then append_outputs o 0 outs else Ok outs);
      raw_execute_loop self kwargs outputs_expected positions' outs'
  end.

(** [outputs_expected]: [self.interface.outputs] is not empty. *)
Definition outputs_expected (self : MapPythonTask) : bool :=
  match outputs (interface self) with
  | [] => false
  | _ :: _ => true
  end.

(** [outputs] before the loop: one empty accumulator per key of
    [self._outputs_interface]. *)
Definition initial_outputs (self : MapPythonTask) (ctx : FlyteContext)
  : list (list PyVal) :=
  (λ _, []) <$> keys (_outputs_interface self ctx).

(** [_raw_execute] up to the end of its loop: the accumulators. *)
Definition raw_execute_outputs (self : MapPythonTask) (ctx : FlyteContext)
    (kwargs : gmap string PyVal) : Exec (list (list PyVal)) :=
  let outputs_expected := outputs_expected self in
  let outs := initial_outputs self ctx in
  do any_input_key <-
    lift (if items_is_not_None (inputs (task_interface (_run_task self)))
          then k ← seq_getitem (keys (inputs (task_interface (_run_task self)))) 0; Ok (Some k)
          else Ok None);
  do c <- lift (dict_getitem kwargs any_input_key);
  do n <- lift (py_len c);
  raw_execute_loop self kwargs outputs_expected (range n) outs.

(** [MapPythonTask._raw_execute]. *)
Definition _raw_execute (self : MapPythonTask) (ctx : FlyteContext)
    (kwargs : gmap string PyVal) : Exec PyVal :=
  do outs <- raw_execute_outputs self ctx kwargs;
  match outs with
  | [acc] => exec_ret (VList acc)
  | _ => exec_ret (VTuple (VList <$> outs))
  end.

(** [MapPythonTask.execute]. *)
Definition execute (self : MapPythonTask) (ctx : FlyteContext)
    (environ : gmap string string) (kwargs : gmap string PyVal) : Exec PyVal :=
  if in_mode ctx TASK_EXECUTION
  then _execute_map_task self environ kwargs
  else _raw_execute self ctx kwargs.

(** *** Reference computations the theorems compare the code with *)

(** Calls [execute] on each scalar mapping in turn and keeps the values
    returned; the first failure ends it. *)
Fixpoint execute_each (t : PythonFunctionTask) (rows : list (gmap string PyVal))
  : Exec (list PyVal) :=
  match rows with
  | [] => exec_ret []
  | r :: rows' =>
      do o <- task_execute t r;
      do os <- execute_each t rows';
      exec_ret (o :: os)
  end.

End Dispatcher.

Arguments PythonFunctionTask : clear implicits.
Arguments MapPythonTask : clear implicits.
Arguments Exec : clear implicits.

(** What one subscript pair [kwargs[k][i]] evaluates to. *)
Definition read_slot (kwargs : gmap string PyVal) (i : Z) (k : string) : result PyVal :=
  c ← dict_getitem kwargs (Some k); py_getitem c i.

(** The scalar mapping that binds each name of [names] to [elem name]. *)
Definition scalar_inputs (names : list string) (elem : string → PyVal)
  : gmap string PyVal :=
  list_to_map ((λ k, (k, elem k)) <$> names).

(** The scalar mappings of the positions [0 .. n-1], [elem i name] being the
    element of the collection [name] at position [i]. *)
Definition rows (names : list string) (elem : nat → string → PyVal) (n : nat)
  : list (gmap string PyVal) :=
  (λ i, scalar_inputs names (elem i)) <$> seq 0 n.

(** What the appends of the loop make of the accumulators [outs] when the
    calls have returned the values [os], in this order. *)
Fixpoint accumulate (outputs_expected : bool) (os : list PyVal)
    (outs : list (list PyVal)) : result (list (list PyVal)) :=
  match os with
  | [] => Ok outs
  | o :: os' =>
      outs' ← (if outputs_expected then append_outputs o 0 outs else Ok outs);
      accumulate outputs_expected os' outs'
  end.

(** Column [j] of the values [v i j], for positions [0 .. n-1]. *)
Definition column (v : nat → nat → PyVal) (n j : nat) : list PyVal :=
  (λ i, v i j) <$> seq 0 n.

(** ** Concrete tasks and inputs *)
Module Samples.

(** The state of the sample tasks: the keyword arguments of every call
    made so far, oldest first. *)
Definition Log : Type := list (gmap string PyVal).

Definition logged (f : gmap string PyVal → result PyVal)
  : gmap string PyVal → Exec Log PyVal :=
  λ kw log, ((log ++ [kw])%list, f kw).

(** A [Variable] as a pair of a type and a description. *)
Definition variable_of (T : pytype) (description : string) : pytype * string :=
  (T, description).

Definition int : pytype := PyPrim "int".
Definition str : pytype := PyPrim "str".

Definition kw1 (k : string) (v : PyVal) : gmap string PyVal := {[ k := v ]}.
Definition ints (l : list Z) : PyVal := VList (VInt <$> l).

(** [def double(a: int) -> int: return 2 * a]; [execute] hands back what
    the function returns. *)
Definition double_fn (kw : gmap string PyVal) : result PyVal :=
  match kw !! "a" with
  | Some (VInt a) => Ok (VInt (2 * a))
  | _ => Raise TypeError
  end.

Definition double : PythonFunctionTask Log :=
  {| python_interface := mkInterface [("a", int)] [("o0", int)];
     task_execute := logged double_fn |}.

(** The same computation returning its single output in a 1-tuple. *)
Definition double_tuple_fn (kw : gmap string PyVal) : result PyVal :=
  match kw !! "a" with
  | Some (VInt a) => Ok (VTuple [VInt (2 * a)])
  | _ => Raise TypeError
  end.

Definition double_tuple : PythonFunctionTask Log :=
  {| python_interface := mkInterface [("a", int)] [("o0", int)];
     task_execute := logged double_tuple_fn |}.

(** [def echo(a: str) -> str: return a]. *)
Definition echo_fn (kw : gmap string PyVal) : result PyVal :=
  match kw !! "a" with
  | Some (VStr a) => Ok (VStr a)
  | _ => Raise TypeError
  end.

Definition echo : PythonFunctionTask Log :=
  {| python_interface := mkInterface [("a", str)] [("o0", str)];
     task_execute := logged echo_fn |}.

(** Two outputs: [def both(a: int) -> (int, int): return a, a + 100]. *)
Definition both_fn (kw : gmap string PyVal) : result PyVal :=
  match kw !! "a" with
  | Some (VInt a) => Ok (VTuple [VInt a; VInt (a + 100)])
  | _ => Raise TypeError
  end.

Definition both : PythonFunctionTask Log :=
  {| python_interface := mkInterface [("a", int)] [("o0", int); ("o1", int)];
     task_execute := logged both_fn |}.

(** No output: [def note(a: int): ...]. *)
Definition note : PythonFunctionTask Log :=
  {| python_interface := mkInterface [("a", int)] [];
     task_execute := logged (λ _, Ok VNone) |}.

(** No input at all. *)
Definition constant : PythonFunctionTask Log :=
  {| python_interface := mkInterface [] [("o0", int)];
     task_execute := logged (λ _, Ok (VTuple [VInt 7])) |}.

(** Two inputs, one output: [def add(a: int, b: int) -> int], the sum in a
    1-tuple. *)
Definition add_fn (kw : gmap string PyVal) : result PyVal :=
  match kw !! "a", kw !! "b" with
  | Some (VInt a), Some (VInt b) => Ok (VTuple [VInt (a + b)])
  | _, _ => Raise TypeError
  end.

Definition add : PythonFunctionTask Log :=
  {| python_interface := mkInterface [("a", int); ("b", int)] [("o0", int)];
     task_execute := logged add_fn |}.

(** Raises on the argument 2, doubles (in a 1-tuple) otherwise. *)
Definition picky_fn (kw : gmap string PyVal) : result PyVal :=
  match kw !! "a" with
  | Some (VInt a) =>
      if a =? 2 then Raise (UserException "two") else Ok (VTuple [VInt (2 * a)])
  | _ => Raise TypeError
  end.

Definition picky : PythonFunctionTask Log :=
  {| python_interface := mkInterface [("a", int)] [("o0", int)];
     task_execute := logged picky_fn |}.

Definition mapper (t : PythonFunctionTask Log) : MapPythonTask Log :=
  MapPythonTask_init t None.

Definition no_state : FlyteContext := {| execution_state := None |}.
Definition in_state (m : Mode) : FlyteContext :=
  {| execution_state := Some {| mode := m |} |}.

Definition environ_B : gmap string string :=
  <[BATCH_JOB_ARRAY_INDEX_OFFSET := "10"]>
    (<[BATCH_JOB_ARRAY_INDEX_VAR_NAME := "AWS_BATCH_JOB_ARRAY_INDEX"]>
       (<["AWS_BATCH_JOB_ARRAY_INDEX" := "1"]> ∅)).

Definition environ_1 : gmap string string :=
  <[BATCH_JOB_ARRAY_INDEX_VAR_NAME := "AWS_BATCH_JOB_ARRAY_INDEX"]>
    (<["AWS_BATCH_JOB_ARRAY_INDEX" := "1"]> ∅).

(** [both] with an [execute] that leaves the state alone. *)
Definition both_pure : PythonFunctionTask Log :=
  {| python_interface := mkInterface [("a", int)] [("o0", int); ("o1", int)];
     task_execute := λ kw log, (log, both_fn kw) |}.

(** An environment whose raw index is no integer literal. *)
Definition environ_x1 : gmap string string :=
  <[BATCH_JOB_ARRAY_INDEX_VAR_NAME := "IDX"]> (<["IDX" := "x1"]> ∅).

(** An environment whose raw index is [-1]. *)
Definition environ_last : gmap string string :=
  <[BATCH_JOB_ARRAY_INDEX_VAR_NAME := "AWS_BATCH_JOB_ARRAY_INDEX"]>
    (<["AWS_BATCH_JOB_ARRAY_INDEX" := "-1"]> ∅).

Definition environ_2 : gmap string string :=
  <[BATCH_JOB_ARRAY_INDEX_VAR_NAME := "AWS_BATCH_JOB_ARRAY_INDEX"]>
    (<["AWS_BATCH_JOB_ARRAY_INDEX" := "2"]> ∅).

(** Collections of unequal lengths for the inputs [a] and [b]. *)
Definition cols_short (k : string) : list PyVal :=
  if String.eqb k "a" then VInt <$> [1; 2; 3] else VInt <$> [10; 20].

Definition cols_long (k : string) : list PyVal :=
  if String.eqb k "a" then VInt <$> [1; 2] else VInt <$> [10; 20; 30].

End Samples.

(** ** Registration data: name, command and container environment *)

(** The task function of the wrapped task, as far as the dispatcher reads
    it: [_task_function.__module__] and [_task_function.__name__]. *)
Record TaskFunction : Type := {
  fn_module : string;
  fn_name : string
}.

(** The [name] computed by [MapPythonTask.__init__]:
    [f"{module}.mapper_{name}"]. *)
Definition mapper_name (f : TaskFunction) : string :=
  (fn_module f ++ ".mapper_" ++ fn_name f)%string.

(** [SerializationSettings], as far as [get_container] reads it. *)
Record SerializationSettings (ImageConfig : Type) : Type := {
  env : option (gmap string string);
  image_config : ImageConfig
}.
Arguments env {ImageConfig} _.
Arguments image_config {ImageConfig} _.

(** [MapPythonTask.get_command]. *)
Definition get_command {ImageConfig} (f : TaskFunction)
    (settings : SerializationSettings ImageConfig) : list string :=
  [ "pyflyte-map-execute";
    "--task-module"; fn_module f;
    "--task-name"; fn_name f;
    "--inputs"; "{{.input}}";
    "--output-prefix"; "{{.outputPrefix}}";
    "--raw-output-data-prefix"; "{{.rawOutputDataPrefix}}" ].

(** Truth value of an optional dictionary: [None] and [{}] are false. *)
Definition dict_truthy (d : option (gmap string string)) : bool :=
  match d with
  | Some m => negb (bool_decide (m = ∅))
  | None => false
  end.

(** The local [env] of [get_container]:
    [{**settings.env, **self.environment} if self.environment else settings.env].
    Unpacking [None] with [**] is a [TypeError]; in the merge the entries of
    [self.environment] win. *)
Definition get_container_env (environment settings_env : option (gmap string string))
  : result (option (gmap string string)) :=
  if dict_truthy environment then
    match settings_env with
    | Some se =>
        match environment with
        | Some te => Ok (Some (te ∪ se))
        | None => Raise TypeError
        end
    | None => Raise TypeError
    end
  else Ok settings_env.

Section Container.

(** [get_registerable_container_image] and [_get_container_definition] are
    imported by [map_task.py]; either may raise (an image configuration
    without a default image, for one). The second is taken with its five
    keyword arguments [image], [command], [args], [data_loading_config] and
    [environment]. *)
Context {ImageConfig Image Container : Type}.
Context (get_registerable_container_image : ImageConfig → result Image).
Context (_get_container_definition :
           Image → list string → list string → option unit →
           option (gmap string string) → result Container).

(** [MapPythonTask.get_container]: [env] is computed first, then the
    arguments of the call from left to right, then the call. *)
Definition get_container (f : TaskFunction) (environment : option (gmap string string))
    (settings : SerializationSettings ImageConfig) : result Container :=
  e ← get_container_env environment (env settings);
  image ← get_registerable_container_image (image_config settings);
  _get_container_definition image [] (get_command f settings) None e.

End Container.

(** ** The BigQuery handlers ([flytekit/types/structured/bigquery.py])

    The parts of [_write_to_bq] and [_read_from_bq] that compute which table
    is addressed; Python strings are lists of characters here. *)
Module BigQuery.

Definition chars (s : string) : list ascii := list_ascii_of_string s.

(** [s] with the prefix [p] removed, when [s] starts with [p]. *)
Fixpoint strip_prefix (p s : list ascii) : option (list ascii) :=
  match p, s with
  | [], _ => Some s
  | a :: p', b :: s' => if Ascii.eqb a b then strip_prefix p' s' else None
  | _ :: _, [] => None
  end.

(** [s.split(sep, 1)] for a non-empty [sep]; [before] holds, reversed, the
    characters passed so far. *)
Fixpoint split_once (sep s before : list ascii) : list (list ascii) :=
  match strip_prefix sep s with
  | Some after => [rev before; after]
  | None =>
      match s with
      | [] => [rev before]
      | c :: s' => split_once sep s' (c :: before)
      end
  end.

(** [s.replace(":", ".")]. *)
Definition replace_colons (s : list ascii) : list ascii :=
  (λ c, if Ascii.eqb c ":" then "."%char else c) <$> s.

(** The [table_id] of [_write_to_bq]:
    [uri.split("://", 1)[1].replace(":", ".")]. *)
Definition write_table_id (uri : list ascii) : result (list ascii) :=
  after ← seq_getitem (split_once (chars "://") uri []) 1;
  Ok (replace_colons after).

(** [re.split("\\.|://|:", path)]: at each position the alternatives are
    tried in the order [.], [://], [:]; [piece] holds, reversed, the
    characters of the piece being read. *)
Fixpoint re_split (s piece : list ascii) : list (list ascii) :=
  match s with
  | [] => [rev piece]
  | c :: r =>
      if Ascii.eqb c "." then rev piece :: re_split r []
      else if Ascii.eqb c ":" then
        match r with
        | c1 :: c2 :: r2 =>
            if Ascii.eqb c1 "/" && Ascii.eqb c2 "/"
            then rev piece :: re_split r2 []
            else rev piece :: re_split r []
        | _ => rev piece :: re_split r []
        end
      else re_split r (c :: piece)
  end.

(** [_, project_id, dataset_id, table_id = re.split(...)]: unpacking
    anything but four pieces is a [ValueError]. *)
Definition read_table_ref (path : list ascii)
  : result (list ascii * list ascii * list ascii) :=
  match re_split path [] with
  | [_; project_id; dataset_id; table_id] => Ok (project_id, dataset_id, table_id)
  | _ => Raise ValueError
  end.

(** The read session [_read_from_bq] requests: [parent], [table] and the
    selected fields ([None] when the dataset type lists no column). *)
Record ReadSession : Type := {
  parent : list ascii;
  table : list ascii;
  selected_fields : option (list string)
}.

Definition read_session (path : list ascii) (columns : list string) : result ReadSession :=
  ref ← read_table_ref path;
  let '(project_id, dataset_id, table_id) := ref in
  let table := (chars "projects/" ++ project_id ++ chars "/datasets/" ++ dataset_id
                ++ chars "/tables/" ++ table_id)%list in
  let parent := (chars "projects/" ++ project_id)%list in
  let read_options :=
    match columns with
    | [] => None
    | _ :: _ => Some columns
    end in
  Ok {| parent := parent; table := table; selected_fields := read_options |}.

(** Strings that hold none of the characters [.], [:] and [/]. *)
Definition plain (x : list ascii) : Prop :=
  Forall (λ c, c ≠ "."%char ∧ c ≠ ":"%char ∧ c ≠ "/"%char) x.

End BigQuery.

(** * Properties *)

Example py_int_examples :
  py_int (Some "10") = Ok 10 /\ py_int (Some " -7 ") = Ok (-7) /\
  py_int (Some "1_000") = Ok 1000 /\ py_int (Some "+5") = Ok 5 /\
  py_int (Some "") = Raise ValueError /\ py_int (Some "1__0") = Raise ValueError /\
  py_int (Some "ab") = Raise ValueError /\ py_int None = Raise TypeError.
Proof. repeat split; reflexivity. Qed.

Example index_example_B : _compute_array_job_index Samples.environ_B = Ok 11.
Proof. vm_compute. reflexivity. Qed.

(** ** The index resolver *)

Lemma truthy_of_parsed (o : string) (z : Z) :
  py_int (Some o) = Ok z → truthy (Some o) = true.
Proof. destruct o; [discriminate | reflexivity]. Qed.

(** C3. When the indirection variable names a variable whose value parses
    as an integer [index], [_compute_array_job_index] returns [0 + index] if
    the offset variable is absent and [offset + index] if it holds a string
    that parses as [offset]. *)
Theorem compute_array_job_index_sum
    (environ : gmap string string) (name raw : string) (index : Z) :
  environ !! BATCH_JOB_ARRAY_INDEX_VAR_NAME = Some name →
  environ !! name = Some raw →
  py_int (Some raw) = Ok index →
  (environ !! BATCH_JOB_ARRAY_INDEX_OFFSET = None →
     _compute_array_job_index environ = Ok (0 + index))
  ∧ (∀ (o : string) (offset : Z),
       environ !! BATCH_JOB_ARRAY_INDEX_OFFSET = Some o →
       py_int (Some o) = Ok offset →
       _compute_array_job_index environ = Ok (offset + index)).
Proof.
  intros Hname Hraw Hindex. unfold _compute_array_job_index. cbn.
  split.
  - intros ->. cbn. rewrite Hname. cbn. rewrite Hraw, Hindex. reflexivity.
  - intros o offset Hoff Hparse. rewrite Hoff.
    rewrite (truthy_of_parsed _ _ Hparse). cbn.
    rewrite Hparse. cbn. rewrite Hname. cbn. rewrite Hraw, Hindex. reflexivity.
Qed.

Lemma compute_array_job_index_sum_witness :
  _compute_array_job_index Samples.environ_B = Ok (10 + 1).
Proof.
  refine (proj2 (compute_array_job_index_sum Samples.environ_B
                   "AWS_BATCH_JOB_ARRAY_INDEX" "1" 1 _ _ _) "10" 10 _ _);
    vm_compute; reflexivity.
Defined.

Lemma offset_step_cases (environ : gmap string string) :
  let o := environ !! BATCH_JOB_ARRAY_INDEX_OFFSET in
  (if truthy o then py_int o else Ok 0) = Raise ValueError
  ∨ ∃ offset, (if truthy o then py_int o else Ok 0) = Ok offset.
Proof.
  cbn. destruct (environ !! BATCH_JOB_ARRAY_INDEX_OFFSET) as [o|]; cbn.
  - destruct (negb _); [|eauto].
    destruct (PyInt.parse o); eauto.
  - eauto.
Qed.

(** C4. When the indirection variable is unset, or the variable it names
    is unset or holds a string that is no integer literal,
    [_compute_array_job_index] returns no index: it raises, and nothing in
    it catches or retries. The exception is a [ValueError] when the offset
    variable holds a non-empty string that is no integer literal;
    otherwise it is a [TypeError] for an unset variable and a [ValueError]
    for a raw value that is no integer literal. The values parsed are
    ASCII strings. *)
Theorem compute_array_job_index_fails (environ : gmap string string) :
  ascii_value environ BATCH_JOB_ARRAY_INDEX_OFFSET →
  environ !! BATCH_JOB_ARRAY_INDEX_VAR_NAME = None
  ∨ (∃ name, environ !! BATCH_JOB_ARRAY_INDEX_VAR_NAME = Some name
             ∧ (environ !! name = None
                ∨ ∃ raw, environ !! name = Some raw ∧ PyInt.is_ascii raw = true
                         ∧ PyInt.parse raw = None)) →
  ∃ e, _compute_array_job_index environ = Raise e
       ∧ (e = TypeError ∨ e = ValueError)
       ∧ ((if truthy (environ !! BATCH_JOB_ARRAY_INDEX_OFFSET)
           then py_int (environ !! BATCH_JOB_ARRAY_INDEX_OFFSET)
           else Ok 0) = Raise ValueError → e = ValueError)
       ∧ (∀ offset,
            (if truthy (environ !! BATCH_JOB_ARRAY_INDEX_OFFSET)
             then py_int (environ !! BATCH_JOB_ARRAY_INDEX_OFFSET)
             else Ok 0) = Ok offset →
            (environ !! BATCH_JOB_ARRAY_INDEX_VAR_NAME = None → e = TypeError)
            ∧ (∀ name, environ !! BATCH_JOB_ARRAY_INDEX_VAR_NAME = Some name →
                 (environ !! name = None → e = TypeError)
                 ∧ (∀ raw, environ !! name = Some raw → PyInt.parse raw = None →
                           e = ValueError))).
Proof.
  intros _ H. unfold _compute_array_job_index. cbn [environ_get mbind result_bind].
  destruct (offset_step_cases environ) as [Hv | [offset Hv]]; cbn zeta in Hv; rewrite Hv;
    cbn [mbind result_bind].
  - exists ValueError. repeat split; auto; discriminate.
  - destruct H as [Hvar | (name & Hvar & Hnamed)]; rewrite Hvar; cbn [environ_get mbind result_bind].
    + exists TypeError. split; [reflexivity|]. split; [auto|]. split; [discriminate|].
      intros _ _. split; [reflexivity|]. discriminate.
    + destruct Hnamed as [Hunset | (raw & Hraw & _ & Hparse)].
      * rewrite Hunset. cbn [py_int mbind result_bind].
        exists TypeError. split; [reflexivity|]. split; [auto|]. split; [discriminate|].
        intros _ _. split; [discriminate|]. intros name' [= <-].
        split; [reflexivity|]. intros raw'. rewrite Hunset. discriminate.
      * rewrite Hraw. cbn [py_int mbind result_bind]. rewrite Hparse.
        cbn [mbind result_bind].
        exists ValueError. split; [reflexivity|]. split; [auto|]. split; [reflexivity|].
        intros _ _. split; [discriminate|]. intros name' [= <-].
        split; [rewrite Hraw; discriminate | reflexivity].
Qed.

Lemma compute_array_job_index_fails_witness :
  ∃ e, _compute_array_job_index Samples.environ_x1 = Raise e ∧ e = ValueError.
Proof.
  destruct (compute_array_job_index_fails Samples.environ_x1)
    as (e & He & _ & _ & Hpair).
  - intros v Hv. vm_compute in Hv. discriminate.
  - right. exists "IDX". split; [vm_compute; reflexivity |].
    right. exists "x1". repeat split; vm_compute; reflexivity.
  - exists e. split; [exact He|].
    assert (Hoff : (if truthy (Samples.environ_x1 !! BATCH_JOB_ARRAY_INDEX_OFFSET)
                    then py_int (Samples.environ_x1 !! BATCH_JOB_ARRAY_INDEX_OFFSET)
                    else Ok 0) = Ok 0) by (vm_compute; reflexivity).
    assert (Hvar : Samples.environ_x1 !! BATCH_JOB_ARRAY_INDEX_VAR_NAME = Some "IDX")
      by (vm_compute; reflexivity).
    apply (proj2 (proj2 (Hpair 0 Hoff) "IDX" Hvar) "x1"); vm_compute; reflexivity.
Defined.

Example compute_array_job_index_errors :
  _compute_array_job_index ∅ = Raise TypeError
  ∧ _compute_array_job_index (<[BATCH_JOB_ARRAY_INDEX_VAR_NAME := "IDX"]> ∅) = Raise TypeError
  ∧ _compute_array_job_index (<[BATCH_JOB_ARRAY_INDEX_VAR_NAME := "IDX"]> (<["IDX" := "x1"]> ∅))
    = Raise ValueError
  ∧ _compute_array_job_index (<[BATCH_JOB_ARRAY_INDEX_OFFSET := ""]> Samples.environ_1) = Ok 1.
Proof. repeat split; vm_compute; reflexivity. Qed.

(** ** Interfaces of a constructed dispatcher *)

Lemma keys_fmap {T U} (f : string * T → U) (d : list (string * T)) :
  keys ((λ kv, (kv.1, f kv)) <$> d) = keys d.
Proof.
  unfold keys. induction d as [|[k x] d IH]; [reflexivity|].
  cbn. f_equal. exact IH.
Qed.

Lemma keys_prod_map {T U} (f : T → U) (d : list (string * T)) :
  keys (prod_map id f <$> d) = keys d.
Proof.
  unfold keys. induction d as [|[k x] d IH]; [reflexivity|].
  cbn. f_equal. exact IH.
Qed.

Lemma interface_getitem_prod_map {T U} (f : T → U) (d : list (string * T)) (k : string) :
  interface_getitem (prod_map id f <$> d) k = f <$> interface_getitem d k.
Proof.
  induction d as [|[k' x] d IH]; [reflexivity|].
  cbn. destruct (String.eqb k' k); [reflexivity | exact IH].
Qed.

Lemma PyList_neq (T : pytype) : PyList T ≠ T.
Proof. induction T as [name | T IH]; [discriminate | congruence]. Qed.

Lemma in_mode_true (ctx : FlyteContext) (m : Mode) :
  in_mode ctx m = true ↔ execution_state ctx = Some {| mode := m |}.
Proof.
  unfold in_mode. destruct ctx as [[[m']|]]; cbn.
  - rewrite bool_decide_eq_true. split; [intros -> | intros [= ->]]; reflexivity.
  - split; discriminate.
Qed.

Section DispatcherFacts.

Context {S Variable' : Type} (transform_type : pytype → string → Variable').

Implicit Types (t : PythonFunctionTask S) (ctx : FlyteContext) (st : S).
Implicit Types (kwargs : gmap string PyVal) (conc : option Z).

Local Abbreviation init := (@MapPythonTask_init S).
Local Abbreviation typed := (transform_interface_to_typed_interface transform_type).

Lemma keys_typed_inputs (i : Interface pytype) :
  keys (inputs (typed i)) = keys (inputs i).
Proof. apply (keys_fmap (λ kv, transform_type kv.2 kv.1)). Qed.

Lemma keys_typed_outputs (i : Interface pytype) :
  keys (outputs (typed i)) = keys (outputs i).
Proof. apply (keys_fmap (λ kv, transform_type kv.2 kv.1)). Qed.

Lemma keys_inputs_interface t conc :
  keys (inputs (interface transform_type (init t conc))) = keys (inputs (python_interface t)).
Proof.
  unfold interface. rewrite keys_typed_inputs. apply keys_prod_map.
Qed.

Lemma keys_inputs_task_interface t :
  keys (inputs (task_interface transform_type t)) = keys (inputs (python_interface t)).
Proof. apply keys_typed_inputs. Qed.

Lemma keys_outputs_interface t conc ctx :
  keys (_outputs_interface transform_type (init t conc) ctx)
  = keys (outputs (python_interface t)).
Proof.
  unfold _outputs_interface, interface, task_interface.
  destruct (in_mode _ _); rewrite keys_typed_outputs;
    [apply keys_prod_map | reflexivity].
Qed.

Lemma initial_outputs_init t conc ctx :
  initial_outputs transform_type (init t conc) ctx
  = (λ _, []) <$> seq 0 (length (outputs (python_interface t))).
Proof.
  unfold initial_outputs. rewrite keys_outputs_interface. unfold keys.
  generalize 0%nat.
  induction (outputs (python_interface t)) as [|kv d IH]; intros a; [reflexivity|].
  cbn. f_equal. apply IH.
Qed.

Lemma outputs_expected_init t conc :
  outputs_expected transform_type (init t conc)
  = negb (length (outputs (python_interface t)) =? 0)%nat.
Proof.
  unfold outputs_expected. cbn.
  destruct (outputs (python_interface t)); reflexivity.
Qed.

(** C7. Both queries answer from the dispatcher's own collection
    interface (every output type [T] of the wrapped task turned into
    [List[T]], names and order kept) when the context has an execution
    state in mode [LOCAL_WORKFLOW_EXECUTION], and from the wrapped task's
    own interface in every other context: no execution state,
    [TASK_EXECUTION], or any further mode. For a declared output the
    batch answer is given in that one case only. *)
Theorem outputs_interface_duality t conc ctx (k : string) (v : PyVal) :
  let self := init t conc in
  match execution_state ctx with
  | Some {| mode := LOCAL_WORKFLOW_EXECUTION |} =>
      _outputs_interface transform_type self ctx
      = (λ kv, (kv.1, transform_type (PyList kv.2) kv.1)) <$> outputs (python_interface t)
      ∧ get_type_for_output_var self ctx k v
        = PyList <$> interface_getitem (outputs (python_interface t)) k
  | _ =>
      _outputs_interface transform_type self ctx
      = outputs (task_interface transform_type t)
      ∧ get_type_for_output_var self ctx k v
        = interface_getitem (outputs (python_interface t)) k
  end
  ∧ ∀ T, interface_getitem (outputs (python_interface t)) k = Ok T →
         (get_type_for_output_var self ctx k v = Ok (PyList T)
          ↔ execution_state ctx = Some {| mode := LOCAL_WORKFLOW_EXECUTION |}).
Proof.
  intros self. split.
  - unfold _outputs_interface, get_type_for_output_var, in_mode.
    destruct ctx as [[[[]]|]]; cbn; (split; [|try reflexivity]); try reflexivity.
    + rewrite <- list_fmap_compose. reflexivity.
    + apply interface_getitem_prod_map.
  - intros T HT. rewrite <- in_mode_true.
    unfold get_type_for_output_var.
    destruct (in_mode ctx LOCAL_WORKFLOW_EXECUTION); cbn.
    + rewrite interface_getitem_prod_map, HT. cbn. tauto.
    + rewrite HT. split; [|discriminate].
      intros [= H]. symmetry in H. exfalso. exact (PyList_neq _ H).
Qed.

(** [execute] takes the distributed path in mode [TASK_EXECUTION] and the
    local path in every other context. *)
Lemma execute_dispatch (self : MapPythonTask S) ctx (environ : gmap string string)
    kwargs st :
  execute transform_type self ctx environ kwargs st
  = match execution_state ctx with
    | Some {| mode := TASK_EXECUTION |} =>
        _execute_map_task transform_type self environ kwargs st
    | _ => _raw_execute transform_type self ctx kwargs st
    end.
Proof. unfold execute, in_mode. destruct ctx as [[[[]]|]]; reflexivity. Qed.

(** *** The [Exec] monad *)

Lemma exec_bind_lift_ok {A B} (a : A) (f : A → Exec S B) st :
  exec_bind (lift (Ok a)) f st = f a st.
Proof. reflexivity. Qed.

Lemma exec_bind_lift_raise {A B} (e : PyExn) (f : A → Exec S B) st :
  exec_bind (lift (Raise e)) f st = (st, Raise e).
Proof. reflexivity. Qed.

(** C10. When the wrapped task declares no input, [_raw_execute] fails
    with the [IndexError] of [list(...)[0]] on the empty key list: the guard
    [items() is not None] is always true. No call of [execute] is made
    (the state is the initial one) and no batch of zero iterations is
    performed. *)
Theorem raw_execute_without_inputs t conc ctx kwargs st :
  inputs (python_interface t) = [] →
  _raw_execute transform_type (init t conc) ctx kwargs st = (st, Raise IndexError).
Proof.
  intros Hnone. unfold _raw_execute, raw_execute_outputs.
  cbn [_run_task MapPythonTask_init].
  rewrite keys_inputs_task_interface, Hnone. reflexivity.
Qed.

End DispatcherFacts.

Lemma outputs_interface_duality_witness :
  get_type_for_output_var (Samples.mapper Samples.double)
    (Samples.in_state LOCAL_WORKFLOW_EXECUTION) "o0" VNone = Ok (PyList Samples.int)
  ∧ get_type_for_output_var (Samples.mapper Samples.double)
      (Samples.in_state TASK_EXECUTION) "o0" VNone = Ok Samples.int
  ∧ get_type_for_output_var (Samples.mapper Samples.double)
      Samples.no_state "o0" VNone = Ok Samples.int.
Proof.
  pose proof (outputs_interface_duality Samples.variable_of Samples.double None) as H.
  split; [|split].
  - exact (proj2 (proj1 (H (Samples.in_state LOCAL_WORKFLOW_EXECUTION) "o0" VNone))).
  - exact (proj2 (proj1 (H (Samples.in_state TASK_EXECUTION) "o0" VNone))).
  - exact (proj2 (proj1 (H Samples.no_state "o0" VNone))).
Defined.

Lemma raw_execute_without_inputs_witness :
  _raw_execute Samples.variable_of (Samples.mapper Samples.constant) Samples.no_state
    (Samples.kw1 "a" (Samples.ints [1; 2; 3])) [] = ([], Raise IndexError).
Proof. apply raw_execute_without_inputs. reflexivity. Defined.

(** ** Reading the inputs of one position *)

Lemma scalar_inputs_lookup (names : list string) (elem : string → PyVal) (k : string) :
  scalar_inputs names elem !! k = if decide (k ∈ names) then Some (elem k) else None.
Proof.
  unfold scalar_inputs. induction names as [|k' names IH]; cbn.
  - rewrite lookup_empty. reflexivity.
  - destruct (decide (k' = k)) as [->|Hne].
    + rewrite lookup_insert_eq. rewrite decide_True by left. reflexivity.
    + rewrite lookup_insert_ne by exact Hne. rewrite IH.
      destruct (decide (k ∈ names)) as [Hin|Hnin].
      * rewrite decide_True by (right; exact Hin). reflexivity.
      * rewrite decide_False; [reflexivity|].
        intros [Heq|Hin]%elem_of_cons; [congruence | contradiction].
Qed.

Lemma index_inputs_cons (k : string) (ks : list string) (kwargs : gmap string PyVal)
    (i : Z) (d : gmap string PyVal) :
  index_inputs (k :: ks) kwargs i d
  = v ← read_slot kwargs i k; index_inputs ks kwargs i (<[k := v]> d).
Proof.
  unfold read_slot. cbn. destruct (kwargs !! k); reflexivity.
Qed.

Lemma index_inputs_ext (ks : list string) (kw1 kw2 : gmap string PyVal) (i : Z)
    (d : gmap string PyVal) :
  (∀ k, k ∈ ks → read_slot kw1 i k = read_slot kw2 i k) →
  index_inputs ks kw1 i d = index_inputs ks kw2 i d.
Proof.
  revert d. induction ks as [|k ks IH]; intros d Hagree; [reflexivity|].
  rewrite !index_inputs_cons. rewrite <- (Hagree k) by left.
  destruct (read_slot kw1 i k) as [v|e]; [|reflexivity].
  cbn. apply IH. intros k' Hk'. apply Hagree. right. exact Hk'.
Qed.

Lemma index_inputs_lookup (ks : list string) (kwargs : gmap string PyVal) (i : Z)
    (elem : string → PyVal) (d : gmap string PyVal) :
  (∀ k, k ∈ ks → read_slot kwargs i k = Ok (elem k)) →
  ∃ d', index_inputs ks kwargs i d = Ok d'
        ∧ ∀ k, d' !! k = if decide (k ∈ ks) then Some (elem k) else d !! k.
Proof.
  revert d. induction ks as [|k ks IH]; intros d Hread.
  - exists d. split; [reflexivity|]. intros k. reflexivity.
  - rewrite index_inputs_cons, (Hread k) by left. cbn.
    destruct (IH (<[k := elem k]> d)) as (d' & Hd' & Hlook).
    { intros k' Hk'. apply Hread. right. exact Hk'. }
    exists d'. split; [exact Hd'|]. intros k'. rewrite Hlook.
    destruct (decide (k' ∈ ks)) as [Hin|Hnin].
    + rewrite decide_True by (right; exact Hin). reflexivity.
    + destruct (decide (k = k')) as [->|Hne].
      * rewrite lookup_insert_eq. rewrite decide_True by left. reflexivity.
      * rewrite lookup_insert_ne by exact Hne.
        rewrite decide_False; [reflexivity|].
        intros [Heq|Hin]%elem_of_cons; [congruence | contradiction].
Qed.

Lemma index_inputs_scalar (ks : list string) (kwargs : gmap string PyVal) (i : Z)
    (elem : string → PyVal) :
  (∀ k, k ∈ ks → read_slot kwargs i k = Ok (elem k)) →
  index_inputs ks kwargs i ∅ = Ok (scalar_inputs ks elem).
Proof.
  intros Hread.
  destruct (index_inputs_lookup ks kwargs i elem ∅ Hread) as (d' & -> & Hlook).
  f_equal. apply map_eq. intros k.
  rewrite Hlook, scalar_inputs_lookup, lookup_empty. reflexivity.
Qed.

Lemma seq_getitem_nat {A} (l : list A) (i : nat) :
  seq_getitem l (Z.of_nat i)
  = match l !! i with Some a => Ok a | None => Raise IndexError end.
Proof.
  unfold seq_getitem. cbv zeta.
  assert ((Z.of_nat i <? 0) = false) as Hpos by (apply Z.ltb_ge; lia).
  rewrite Hpos. cbv iota. rewrite Hpos, Nat2Z.id. cbn [orb].
  destruct (Z.leb_spec (Z.of_nat (length l)) (Z.of_nat i)) as [Hge|Hlt].
  - rewrite lookup_ge_None_2 by lia. reflexivity.
  - reflexivity.
Qed.

Lemma read_slot_list (kwargs : gmap string PyVal) (k : string) (l : list PyVal) (i : nat) :
  kwargs !! k = Some (VList l) →
  read_slot kwargs (Z.of_nat i) k
  = match l !! i with Some v => Ok v | None => Raise IndexError end.
Proof.
  intros Hk. unfold read_slot. cbn. rewrite Hk. cbn. apply seq_getitem_nat.
Qed.

(** At a position that is the length of the shortest collection, reading
    the inputs raises [IndexError]. *)
Lemma index_inputs_shortest (ks : list string) (kwargs : gmap string PyVal)
    (cols : string → list PyVal) (m : nat) (d : gmap string PyVal) :
  (∀ k, k ∈ ks → kwargs !! k = Some (VList (cols k)) ∧ (m ≤ length (cols k))%nat) →
  (∃ k, k ∈ ks ∧ length (cols k) = m) →
  index_inputs ks kwargs (Z.of_nat m) d = Raise IndexError.
Proof.
  revert d. induction ks as [|k ks IH]; intros d Hcols (k1 & Hk1 & Hlen).
  - inversion Hk1.
  - rewrite index_inputs_cons.
    destruct (Hcols k) as [Hk Hge]; [left|].
    rewrite (read_slot_list _ _ _ _ Hk).
    destruct (cols k !! m) as [v|] eqn:Hv; [|reflexivity].
    cbn. apply IH.
    + intros k' Hk'. apply Hcols. right. exact Hk'.
    + exists k1. split; [|exact Hlen].
      apply elem_of_cons in Hk1 as [->|Hin]; [|exact Hin].
      apply lookup_lt_Some in Hv. lia.
Qed.

(** ** Positions *)

Lemma range_split (n i : nat) :
  (i < n)%nat →
  range n = (range i ++ Z.of_nat i :: (Z.of_nat <$> seq (S i) (n - S i)))%list.
Proof.
  intros Hlt. unfold range.
  replace n with (i + S (n - S i))%nat at 1 by lia.
  rewrite seq_app, fmap_app. reflexivity.
Qed.

Lemma elem_of_range (n : nat) (p : Z) :
  p ∈ range n ↔ ∃ i, p = Z.of_nat i ∧ (i < n)%nat.
Proof.
  unfold range. rewrite list_elem_of_fmap. split.
  - intros (i & -> & Hi). apply elem_of_seq in Hi. exists i. split; [reflexivity | lia].
  - intros (i & -> & Hi). exists i. split; [reflexivity|]. apply elem_of_seq. lia.
Qed.

Lemma rows_readable (names : list string) (kwargs : gmap string PyVal)
    (elem : nat → string → PyVal) (n : nat) :
  (∀ i k, (i < n)%nat → k ∈ names → read_slot kwargs (Z.of_nat i) k = Ok (elem i k)) →
  Forall2 (λ p row, index_inputs names kwargs p ∅ = Ok row) (range n) (rows names elem n).
Proof.
  intros Hread. unfold range, rows. apply Forall2_fmap, Forall_Forall2_diag.
  apply Forall_forall. intros i Hi. apply elem_of_seq in Hi.
  apply index_inputs_scalar. intros k Hk. apply Hread; [lia | exact Hk].
Qed.

(** ** The loop of [_raw_execute] *)

Section LoopFacts.

Context {S Variable' : Type} (transform_type : pytype → string → Variable').

Implicit Types (t : PythonFunctionTask S) (self : MapPythonTask S).
Implicit Types (ctx : FlyteContext) (st : S) (conc : option Z).
Implicit Types (kwargs : gmap string PyVal) (outs : list (list PyVal)).

Local Abbreviation init := (@MapPythonTask_init S).
Local Abbreviation loop := (raw_execute_loop transform_type).
Local Abbreviation input_keys self := (keys (inputs (interface transform_type self))).

Lemma loop_cons self kwargs oe (i : Z) (ps : list Z) outs st :
  loop self kwargs oe (i :: ps) outs st
  = match index_inputs (input_keys self) kwargs i ∅ with
    | Ok row =>
        match task_execute (_run_task self) row st with
        | (st1, Ok o) =>
            match (if oe then append_outputs o 0 outs else Ok outs) with
            | Ok outs' => loop self kwargs oe ps outs' st1
            | Raise e => (st1, Raise e)
            end
        | (st1, Raise e) => (st1, Raise e)
        end
    | Raise e => (st, Raise e)
    end.
Proof.
  cbn [raw_execute_loop]. unfold exec_bind, lift.
  destruct (index_inputs _ _ _ _) as [row|e]; [|reflexivity].
  destruct (task_execute _ row st) as [st1 [o|e]]; [|reflexivity].
  destruct (if oe then _ else _); reflexivity.
Qed.

Lemma loop_app self kwargs oe (ps1 ps2 : list Z) outs st :
  loop self kwargs oe (ps1 ++ ps2) outs st
  = match loop self kwargs oe ps1 outs st with
    | (st1, Ok outs1) => loop self kwargs oe ps2 outs1 st1
    | (st1, Raise e) => (st1, Raise e)
    end.
Proof.
  revert outs st. induction ps1 as [|i ps1 IH]; intros outs st; [reflexivity|].
  rewrite <- app_comm_cons, !loop_cons.
  destruct (index_inputs _ _ _ _) as [row|e]; [|reflexivity].
  destruct (task_execute _ row st) as [st1 [o|e]]; [|reflexivity].
  destruct (if oe then _ else _); [apply IH | reflexivity].
Qed.

Lemma loop_ext self (kw1 kw2 : gmap string PyVal) oe (ps : list Z) outs st :
  (∀ i k, i ∈ ps → k ∈ input_keys self → read_slot kw1 i k = read_slot kw2 i k) →
  loop self kw1 oe ps outs st = loop self kw2 oe ps outs st.
Proof.
  revert outs st. induction ps as [|i ps IH]; intros outs st Hagree; [reflexivity|].
  rewrite !loop_cons.
  rewrite (index_inputs_ext _ kw1 kw2) by (intros k Hk; apply Hagree; [left | exact Hk]).
  destruct (index_inputs _ _ _ _) as [row|e]; [|reflexivity].
  destruct (task_execute _ row st) as [st1 [o|e]]; [|reflexivity].
  destruct (if oe then _ else _); [|reflexivity].
  apply IH. intros i' k Hi' Hk. apply Hagree; [right; exact Hi' | exact Hk].
Qed.

(** With a first declared input [k0] bound to a sized value, the
    accumulators are those of the loop over [range(len(kwargs[k0]))]. *)
Lemma raw_execute_outputs_loop t conc ctx kwargs k0 T0 rest (c : PyVal) (n : nat) st :
  inputs (python_interface t) = (k0, T0) :: rest →
  kwargs !! k0 = Some c →
  py_len c = Ok n →
  raw_execute_outputs transform_type (init t conc) ctx kwargs st
  = loop (init t conc) kwargs (outputs_expected transform_type (init t conc))
      (range n) (initial_outputs transform_type (init t conc) ctx) st.
Proof.
  intros Hin Hk0 Hlen. unfold raw_execute_outputs.
  cbn [_run_task MapPythonTask_init].
  rewrite keys_inputs_task_interface, Hin.
  change 0 with (Z.of_nat 0). rewrite seq_getitem_nat.
  cbn [keys fmap list_fmap fst lookup list_lookup]. unfold items_is_not_None.
  cbn [mbind result_bind]. rewrite exec_bind_lift_ok.
  cbn [dict_getitem]. rewrite Hk0, exec_bind_lift_ok, Hlen, exec_bind_lift_ok.
  reflexivity.
Qed.

Lemma raw_execute_of_outputs self ctx kwargs st :
  _raw_execute transform_type self ctx kwargs st
  = match raw_execute_outputs transform_type self ctx kwargs st with
    | (st', Ok [acc]) => (st', Ok (VList acc))
    | (st', Ok outs) => (st', Ok (VTuple (VList <$> outs)))
    | (st', Raise e) => (st', Raise e)
    end.
Proof.
  unfold _raw_execute, exec_bind.
  destruct (raw_execute_outputs _ _ _ _ _) as [st' [[|acc [|acc' outs]]|e]]; reflexivity.
Qed.

(** C8. If the loop has completed the positions below [i], in state [st1],
    and [execute] raises [e] on the inputs of position [i], leaving the
    state [st2], then [_raw_execute] ends in [st2] raising [e]: the same
    exception, no value, and nothing run after the failing call, however
    many positions follow. *)
Theorem raw_execute_propagates_failure t conc ctx kwargs k0 T0 rest
    (c : PyVal) (n i : nat) (row : gmap string PyVal) outs1 (e : PyExn) st0 st1 st2 :
  let self := init t conc in
  inputs (python_interface t) = (k0, T0) :: rest →
  kwargs !! k0 = Some c →
  py_len c = Ok n →
  (i < n)%nat →
  loop self kwargs (outputs_expected transform_type self) (range i)
    (initial_outputs transform_type self ctx) st0 = (st1, Ok outs1) →
  index_inputs (keys (inputs (python_interface t))) kwargs (Z.of_nat i) ∅ = Ok row →
  task_execute t row st1 = (st2, Raise e) →
  _raw_execute transform_type self ctx kwargs st0 = (st2, Raise e).
Proof.
  intros self Hin Hk0 Hlen Hi Hprefix Hrow Hraise.
  rewrite raw_execute_of_outputs.
  unfold self. rewrite (raw_execute_outputs_loop _ _ _ _ _ _ _ _ _ _ Hin Hk0 Hlen).
  rewrite (range_split n i Hi), loop_app. fold self. rewrite Hprefix.
  rewrite loop_cons. unfold self. rewrite keys_inputs_interface, Hrow.
  cbn [_run_task MapPythonTask_init]. rewrite Hraise. reflexivity.
Qed.

(** C9. The number of positions is the length of the collection bound to
    the first declared input, and no lengths are compared. With every
    input bound to a list: (1) if the shortest list has length [m], below
    the length of the first, and the loop has completed the positions
    below [m] in state [st1], then [_raw_execute] ends in [st1] raising
    [IndexError]; (2) if no list is shorter than the first, the run is
    the run on the lists cut to the length of the first. *)
Theorem raw_execute_unequal_lengths t conc ctx kwargs k0 T0 rest
    (cols : string → list PyVal) :
  let self := init t conc in
  let names := keys (inputs (python_interface t)) in
  inputs (python_interface t) = (k0, T0) :: rest →
  (∀ k, k ∈ names → kwargs !! k = Some (VList (cols k))) →
  (∀ (m : nat) outs1 st0 st1,
      (m < length (cols k0))%nat →
      (∃ k, k ∈ names ∧ length (cols k) = m) →
      (∀ k, k ∈ names → (m ≤ length (cols k))%nat) →
      loop self kwargs (outputs_expected transform_type self) (range m)
        (initial_outputs transform_type self ctx) st0 = (st1, Ok outs1) →
      _raw_execute transform_type self ctx kwargs st0 = (st1, Raise IndexError))
  ∧ (∀ (kwargs' : gmap string PyVal) st,
       (∀ k, k ∈ names → (length (cols k0) ≤ length (cols k))%nat) →
       (∀ k, k ∈ names →
             kwargs' !! k = Some (VList (take (length (cols k0)) (cols k)))) →
       _raw_execute transform_type self ctx kwargs st
       = _raw_execute transform_type self ctx kwargs' st).
Proof.
  intros self names Hin Hcols.
  assert (Hk0 : k0 ∈ names) by (unfold names; rewrite Hin; left).
  split.
  - intros m outs1 st0 st1 Hm Hshort Hmin Hprefix.
    rewrite raw_execute_of_outputs. unfold self.
    rewrite (raw_execute_outputs_loop _ _ _ _ _ _ _ _ _ _ Hin (Hcols k0 Hk0) eq_refl).
    rewrite (range_split _ m Hm), loop_app. fold self. rewrite Hprefix.
    rewrite loop_cons. unfold self. rewrite keys_inputs_interface.
    rewrite (index_inputs_shortest _ _ cols m); [reflexivity | | exact Hshort].
    intros k Hk. split; [apply Hcols | apply Hmin]; exact Hk.
  - intros kwargs' st Hlong Hcut.
    rewrite !raw_execute_of_outputs. unfold self.
    rewrite (raw_execute_outputs_loop _ _ _ kwargs _ _ _ _ _ _ Hin (Hcols k0 Hk0) eq_refl).
    rewrite (raw_execute_outputs_loop _ _ _ kwargs' _ _ _ _ _ _ Hin (Hcut k0 Hk0) eq_refl).
    cbn [py_len]. rewrite length_take, Nat.min_id.
    rewrite (loop_ext _ kwargs kwargs'); [reflexivity|].
    intros p k (i & -> & Hi)%elem_of_range Hk.
    rewrite keys_inputs_interface in Hk.
    rewrite (read_slot_list _ _ _ _ (Hcols k Hk)), (read_slot_list _ _ _ _ (Hcut k Hk)).
    rewrite lookup_take_lt by exact Hi. reflexivity.
Qed.

End LoopFacts.

(** ** Accumulating the outputs *)

Lemma append_outputs_columns (o : PyVal) (k a : nat) (col : nat → list PyVal)
    (g : nat → PyVal) :
  (∀ j, (a ≤ j < a + k)%nat → py_getitem o (Z.of_nat j) = Ok (g j)) →
  append_outputs o (Z.of_nat a) (col <$> seq a k)
  = Ok ((λ j, (col j ++ [g j])%list) <$> seq a k).
Proof.
  revert a. induction k as [|k IH]; intros a Hget; [reflexivity|].
  cbn. rewrite (Hget a) by lia. cbn.
  replace (Z.of_nat a + 1) with (Z.of_nat (Datatypes.S a)) by lia.
  rewrite IH by (intros j Hj; apply Hget; lia). reflexivity.
Qed.

Lemma accumulate_no_outputs (os : list PyVal) (outs : list (list PyVal)) :
  accumulate false os outs = Ok outs.
Proof. induction os as [|o os IH]; [reflexivity | exact IH]. Qed.

Lemma accumulate_columns (os : list PyVal) (k a : nat) (v : nat → nat → PyVal)
    (col : nat → list PyVal) :
  (∀ i j o, os !! i = Some o → (j < k)%nat →
            py_getitem o (Z.of_nat j) = Ok (v (a + i)%nat j)) →
  accumulate true os (col <$> seq 0 k)
  = Ok ((λ j, (col j ++ ((λ i, v i j) <$> seq a (length os)))%list) <$> seq 0 k).
Proof.
  revert a col. induction os as [|o os IH]; intros a col Hget.
  - cbn. f_equal. apply list_fmap_ext. intros _ j _. rewrite app_nil_r. reflexivity.
  - cbn [accumulate].
    change (append_outputs o 0) with (append_outputs o (Z.of_nat 0)).
    rewrite (append_outputs_columns o k 0 col (v a)).
    2:{ intros j Hj. rewrite (Hget 0%nat j o eq_refl) by lia.
        rewrite Nat.add_0_r. reflexivity. }
    cbn [mbind result_bind].
    rewrite (IH (Datatypes.S a)).
    2:{ intros i j o' Ho' Hj. rewrite (Hget (Datatypes.S i) j o' Ho' Hj).
        rewrite Nat.add_succ_r. reflexivity. }
    f_equal. apply list_fmap_ext. intros _ j _.
    rewrite <- app_assoc. reflexivity.
Qed.

Section CompletedRuns.

Context {S Variable' : Type} (transform_type : pytype → string → Variable').

Implicit Types (t : PythonFunctionTask S) (self : MapPythonTask S).
Implicit Types (ctx : FlyteContext) (st : S) (conc : option Z).
Implicit Types (kwargs : gmap string PyVal) (outs : list (list PyVal)).

Local Abbreviation init := (@MapPythonTask_init S).
Local Abbreviation loop := (raw_execute_loop transform_type).
Local Abbreviation input_keys self := (keys (inputs (interface transform_type self))).

Lemma execute_each_cons t (row : gmap string PyVal) (rws : list (gmap string PyVal)) st :
  execute_each t (row :: rws) st
  = match task_execute t row st with
    | (st1, Ok o) =>
        match execute_each t rws st1 with
        | (st2, Ok os) => (st2, Ok (o :: os))
        | (st2, Raise e) => (st2, Raise e)
        end
    | (st1, Raise e) => (st1, Raise e)
    end.
Proof.
  cbn [execute_each]. unfold exec_bind.
  destruct (task_execute t row st) as [st1 [o|e]]; [|reflexivity].
  destruct (execute_each t rws st1) as [st2 [os|e]]; reflexivity.
Qed.

Lemma execute_each_length t (rws : list (gmap string PyVal)) (os : list PyVal) st st' :
  execute_each t rws st = (st', Ok os) → length os = length rws.
Proof.
  revert os st. induction rws as [|row rws IH]; intros os st.
  - intros [= _ <-]. reflexivity.
  - rewrite execute_each_cons.
    destruct (task_execute t row st) as [st1 [o|e]]; [|discriminate].
    destruct (execute_each t rws st1) as [st2 [os'|e]] eqn:Hrest; [|discriminate].
    intros [= <- <-]. cbn. f_equal. exact (IH _ _ Hrest).
Qed.

(** When every call returns and every append succeeds, the loop returns
    the accumulated outputs, in the state the calls leave. *)
Lemma loop_returns self kwargs oe (ps : list Z) (rws : list (gmap string PyVal))
    (os : list PyVal) outs outs' st st' :
  Forall2 (λ p row, index_inputs (input_keys self) kwargs p ∅ = Ok row) ps rws →
  execute_each (_run_task self) rws st = (st', Ok os) →
  accumulate oe os outs = Ok outs' →
  loop self kwargs oe ps outs st = (st', Ok outs').
Proof.
  intros Hrows. revert os outs st.
  induction Hrows as [|p row ps rws Hrow _ IH]; intros os outs st.
  - intros [= <- <-] [= <-]. reflexivity.
  - rewrite execute_each_cons, loop_cons, Hrow.
    destruct (task_execute _ row st) as [st1 [o|e]]; [|discriminate].
    destruct (execute_each _ rws st1) as [st2 [os'|e]] eqn:Hrest; [|discriminate].
    intros [= <- <-]. cbn [accumulate].
    destruct (if oe then _ else _) as [outs1|e]; [|discriminate].
    cbn [mbind result_bind]. intros Hacc. exact (IH _ _ _ Hrest Hacc).
Qed.

(** Without expected outputs the loop is the sequence of calls, and keeps
    the accumulators as they are. *)
Lemma loop_side_effects self kwargs (ps : list Z) (rws : list (gmap string PyVal))
    outs st :
  Forall2 (λ p row, index_inputs (input_keys self) kwargs p ∅ = Ok row) ps rws →
  loop self kwargs false ps outs st
  = (let (st', r) := execute_each (_run_task self) rws st in (st', (λ _, outs) <$> r)).
Proof.
  intros Hrows. revert st.
  induction Hrows as [|p row ps rws Hrow _ IH]; intros st; [reflexivity|].
  rewrite execute_each_cons, loop_cons, Hrow.
  destruct (task_execute _ row st) as [st1 [o|e]]; [|reflexivity].
  rewrite IH.
  destruct (execute_each _ rws st1) as [st2 [os'|e]]; reflexivity.
Qed.

(** The accumulators of a run in which every call returns a value with
    components [0 .. k-1]: accumulator [j] holds component [j] of the
    value of every position, in position order. *)
Lemma raw_execute_outputs_columns t conc ctx kwargs k0 T0 rest (c : PyVal) (n : nat)
    (elem : nat → string → PyVal) (os : list PyVal) (v : nat → nat → PyVal) st st' :
  let names := keys (inputs (python_interface t)) in
  let k := length (outputs (python_interface t)) in
  inputs (python_interface t) = (k0, T0) :: rest →
  kwargs !! k0 = Some c →
  py_len c = Ok n →
  (∀ i key, (i < n)%nat → key ∈ names →
            read_slot kwargs (Z.of_nat i) key = Ok (elem i key)) →
  execute_each t (rows names elem n) st = (st', Ok os) →
  (∀ i j o, os !! i = Some o → (j < k)%nat → py_getitem o (Z.of_nat j) = Ok (v i j)) →
  raw_execute_outputs transform_type (init t conc) ctx kwargs st
  = (st', Ok (column v n <$> seq 0 k)).
Proof.
  intros names k Hin Hk0 Hlen Hread Hcalls Hget.
  rewrite (raw_execute_outputs_loop transform_type _ _ _ _ _ _ _ _ _ _ Hin Hk0 Hlen).
  apply (loop_returns _ _ _ _ (rows names elem n) os).
  - rewrite keys_inputs_interface. apply rows_readable. exact Hread.
  - exact Hcalls.
  - rewrite initial_outputs_init, outputs_expected_init. fold k.
    destruct k as [|k'] eqn:Hk; [apply accumulate_no_outputs|].
    cbn [Nat.eqb negb]. rewrite (accumulate_columns os _ 0 v (λ _, [])) by exact Hget.
    rewrite (execute_each_length _ _ _ _ _ Hcalls). unfold rows. rewrite length_fmap, length_seq.
    reflexivity.
Qed.

(** With several declared outputs, in a run that completes (every position
    readable, every call returning a value with components [0 .. k-1]),
    the result is the tuple of the [k] accumulators, the [j]-th one
    collecting component [j], that is, in declaration order. *)
Lemma raw_execute_several_outputs t conc ctx kwargs k0 T0 rest (c : PyVal) (n : nat)
    (elem : nat → string → PyVal) (os : list PyVal) (v : nat → nat → PyVal) st st' :
  let names := keys (inputs (python_interface t)) in
  let k := length (outputs (python_interface t)) in
  inputs (python_interface t) = (k0, T0) :: rest →
  kwargs !! k0 = Some c →
  py_len c = Ok n →
  (∀ i key, (i < n)%nat → key ∈ names →
            read_slot kwargs (Z.of_nat i) key = Ok (elem i key)) →
  execute_each t (rows names elem n) st = (st', Ok os) →
  (∀ i j o, os !! i = Some o → (j < k)%nat → py_getitem o (Z.of_nat j) = Ok (v i j)) →
  (1 < k)%nat →
  _raw_execute transform_type (init t conc) ctx kwargs st
  = (st', Ok (VTuple ((λ j, VList (column v n j)) <$> seq 0 k))).
Proof.
  intros names k Hin Hk0 Hlen Hread Hcalls Hget Hk.
  rewrite raw_execute_of_outputs.
  rewrite (raw_execute_outputs_columns t conc ctx kwargs k0 T0 rest c n elem os v st st'
             Hin Hk0 Hlen Hread Hcalls Hget).
  fold k. destruct k as [|[|k']]; [lia | lia |].
  cbn [seq fmap list_fmap]. rewrite <- !list_fmap_compose. reflexivity.
Qed.

(** C5. With exactly one declared output the single accumulator is not
    handed back when [execute] returns the output itself and that value
    has no component 0: the loop subscripts the value, and the exception
    of the subscript ends the run right after the first call. For an
    integer output it is a [TypeError]. *)
Theorem raw_execute_single_output_subscripted t conc ctx kwargs k0 T0 rest
    (out : string) (T : pytype) (c : PyVal) (n : nat) (row : gmap string PyVal)
    (o : PyVal) (e : PyExn) st st1 :
  outputs (python_interface t) = [(out, T)] →
  inputs (python_interface t) = (k0, T0) :: rest →
  kwargs !! k0 = Some c →
  py_len c = Ok (Datatypes.S n) →
  index_inputs (keys (inputs (python_interface t))) kwargs 0 ∅ = Ok row →
  task_execute t row st = (st1, Ok o) →
  py_getitem o 0 = Raise e →
  _raw_execute transform_type (init t conc) ctx kwargs st = (st1, Raise e).
Proof.
  intros Hout Hin Hk0 Hlen Hrow Hcall Hsub.
  rewrite raw_execute_of_outputs.
  rewrite (raw_execute_outputs_loop transform_type _ _ _ _ _ _ _ _ _ _ Hin Hk0 Hlen).
  change (range (Datatypes.S n)) with (0 :: (Z.of_nat <$> seq 1 n)).
  rewrite loop_cons, keys_inputs_interface, Hrow.
  cbn [_run_task MapPythonTask_init]. rewrite Hcall.
  rewrite initial_outputs_init, outputs_expected_init, Hout.
  cbn [length Nat.eqb negb seq fmap list_fmap append_outputs].
  rewrite Hsub. reflexivity.
Qed.

(** C6, amended. When the wrapped task declares no output and every
    position is readable, [_raw_execute] makes the calls of [execute] on
    the inputs of positions [0 .. n-1], one per position and in order,
    and then returns the empty tuple (a failing call ends the run with
    its exception). *)
Theorem raw_execute_no_outputs t conc ctx kwargs k0 T0 rest (c : PyVal) (n : nat)
    (elem : nat → string → PyVal) st :
  let names := keys (inputs (python_interface t)) in
  outputs (python_interface t) = [] →
  inputs (python_interface t) = (k0, T0) :: rest →
  kwargs !! k0 = Some c →
  py_len c = Ok n →
  (∀ i key, (i < n)%nat → key ∈ names →
            read_slot kwargs (Z.of_nat i) key = Ok (elem i key)) →
  _raw_execute transform_type (init t conc) ctx kwargs st
  = (let (st', r) := execute_each t (rows names elem n) st in
     (st', (λ _, VTuple []) <$> r)).
Proof.
  intros names Hout Hin Hk0 Hlen Hread.
  rewrite raw_execute_of_outputs.
  rewrite (raw_execute_outputs_loop transform_type _ _ _ _ _ _ _ _ _ _ Hin Hk0 Hlen).
  rewrite initial_outputs_init, outputs_expected_init, Hout.
  cbn [length Nat.eqb negb seq fmap list_fmap].
  rewrite (loop_side_effects _ _ _ (rows names elem n)).
  2:{ rewrite keys_inputs_interface. apply rows_readable. exact Hread. }
  cbn [_run_task MapPythonTask_init].
  destruct (execute_each t _ st) as [st' [os|e]]; reflexivity.
Qed.

(** C2. With the slot index resolved to [s]: (1) when every declared
    input [name] can be read at [s], giving [elem name],
    [_execute_map_task] is the call of [execute] on the mapping of the
    declared names to these elements, its state and result (value or
    exception) unchanged; (2) two keyword dictionaries whose reads at [s]
    agree for every declared input give the same run, whatever else the
    collections hold and whatever their lengths. *)
Theorem execute_map_task_reads_own_slot t conc (environ : gmap string string) (s : Z) :
  let self := init t conc in
  let names := keys (inputs (python_interface t)) in
  _compute_array_job_index environ = Ok s →
  (∀ kwargs (elem : string → PyVal) st,
      (∀ name, name ∈ names → read_slot kwargs s name = Ok (elem name)) →
      _execute_map_task transform_type self environ kwargs st
      = task_execute t (scalar_inputs names elem) st)
  ∧ (∀ (kw1 kw2 : gmap string PyVal) st,
       (∀ name, name ∈ names → read_slot kw1 s name = read_slot kw2 s name) →
       _execute_map_task transform_type self environ kw1 st
       = _execute_map_task transform_type self environ kw2 st).
Proof.
  intros self names Hs. unfold _execute_map_task. rewrite Hs.
  unfold self. rewrite keys_inputs_interface. fold names.
  split.
  - intros kwargs elem st Hread.
    rewrite exec_bind_lift_ok, (index_inputs_scalar _ _ _ elem Hread).
    reflexivity.
  - intros kw1 kw2 st Hagree.
    rewrite !exec_bind_lift_ok, (index_inputs_ext _ kw1 kw2 _ _ Hagree).
    reflexivity.
Qed.

End CompletedRuns.

(** ** The theorems at concrete tasks *)

Import Samples.

(** Case analysis on membership in an explicit list of names. *)
Ltac in_names H :=
  cbn in H;
  repeat (apply elem_of_cons in H as [->|H]);
  [.. | inversion H].

Ltac run := vm_compute; reflexivity.

Lemma execute_map_task_reads_own_slot_witness :
  _execute_map_task variable_of (mapper double) environ_1 (kw1 "a" (ints [1; 2; 3])) []
  = task_execute double (kw1 "a" (VInt 2)) []
  ∧ _execute_map_task variable_of (mapper double) environ_1 (kw1 "a" (ints [1; 2; 3])) []
    = _execute_map_task variable_of (mapper double) environ_1 (kw1 "a" (ints [9; 2])) [].
Proof.
  assert (Hs : _compute_array_job_index environ_1 = Ok 1) by run.
  destruct (execute_map_task_reads_own_slot variable_of double None environ_1 1 Hs)
    as [Hcall Hagree].
  split.
  - apply (Hcall _ (λ _, VInt 2)). intros name Hname. in_names Hname. run.
  - apply Hagree. intros name Hname. in_names Hname. run.
Defined.

Lemma raw_execute_propagates_failure_witness :
  _raw_execute variable_of (mapper picky) no_state (kw1 "a" (ints [1; 2; 3])) []
  = ([kw1 "a" (VInt 1); kw1 "a" (VInt 2)], Raise (UserException "two")).
Proof.
  apply (raw_execute_propagates_failure variable_of picky None no_state
           (kw1 "a" (ints [1; 2; 3])) "a" int [] (ints [1; 2; 3]) 3 1
           (kw1 "a" (VInt 2)) [[VInt 2]] (UserException "two")
           [] [kw1 "a" (VInt 1)]);
    try run.
  lia.
Defined.

Lemma raw_execute_unequal_lengths_witness :
  _raw_execute variable_of (mapper add) no_state
    (<["a" := ints [1; 2; 3]]> (kw1 "b" (ints [10; 20]))) []
  = ([<["a" := VInt 1]> (kw1 "b" (VInt 10)); <["a" := VInt 2]> (kw1 "b" (VInt 20))],
     Raise IndexError)
  ∧ _raw_execute variable_of (mapper add) no_state
      (<["a" := ints [1; 2]]> (kw1 "b" (ints [10; 20; 30]))) []
    = _raw_execute variable_of (mapper add) no_state
        (<["a" := ints [1; 2]]> (kw1 "b" (ints [10; 20]))) [].
Proof.
  split.
  - refine (proj1 (raw_execute_unequal_lengths variable_of add None no_state
                     (<["a" := ints [1; 2; 3]]> (kw1 "b" (ints [10; 20])))
                     "a" int [("b", int)] cols_short eq_refl _)
              2%nat [[VInt 11; VInt 22]] [] _ _ _ _ _).
    + intros k Hk. in_names Hk; run.
    + cbn. lia.
    + exists "b". split; [right; left | reflexivity].
    + intros k Hk. in_names Hk; cbn; lia.
    + run.
  - refine (proj2 (raw_execute_unequal_lengths variable_of add None no_state
                     (<["a" := ints [1; 2]]> (kw1 "b" (ints [10; 20; 30])))
                     "a" int [("b", int)] cols_long eq_refl _)
              (<["a" := ints [1; 2]]> (kw1 "b" (ints [10; 20]))) [] _ _).
    + intros k Hk. in_names Hk; run.
    + intros k Hk. in_names Hk; cbn; lia.
    + intros k Hk. in_names Hk; run.
Defined.

Example raw_execute_example_C :
  _raw_execute variable_of (mapper both) no_state (kw1 "a" (ints [1; 2; 3])) []
  = ([kw1 "a" (VInt 1); kw1 "a" (VInt 2); kw1 "a" (VInt 3)],
     Ok (VTuple [VList [VInt 1; VInt 2; VInt 3];
                 VList [VInt 101; VInt 102; VInt 103]])).
Proof.
  refine (raw_execute_several_outputs variable_of both None no_state
            (kw1 "a" (ints [1; 2; 3])) "a" int [] (ints [1; 2; 3]) 3
            (λ i _, VInt (Z.of_nat i + 1))
            [VTuple [VInt 1; VInt 101]; VTuple [VInt 2; VInt 102];
             VTuple [VInt 3; VInt 103]]
            (λ i j, VInt (Z.of_nat i + 1 + 100 * Z.of_nat j))
            [] _ eq_refl eq_refl eq_refl _ _ _ _).
  - intros [|[|[|i]]] key Hi Hkey; try lia; in_names Hkey; run.
  - run.
  - intros [|[|[|i]]] j o Ho Hj; try discriminate;
      injection Ho as <-; destruct j as [|[|j]]; try (cbn in Hj; lia); reflexivity.
  - cbn. lia.
Qed.

Lemma raw_execute_single_output_subscripted_witness :
  _raw_execute variable_of (mapper double) no_state (kw1 "a" (ints [1; 2; 3])) []
  = ([kw1 "a" (VInt 1)], Raise TypeError).
Proof.
  apply (raw_execute_single_output_subscripted variable_of double None no_state
           (kw1 "a" (ints [1; 2; 3])) "a" int [] "o0" int (ints [1; 2; 3]) 2
           (kw1 "a" (VInt 1)) (VInt 2) TypeError [] [kw1 "a" (VInt 1)]); run.
Defined.

(** The claim C6 reads "returns no value"; the value returned is the empty
    tuple, not [None]. *)
Lemma raw_execute_no_outputs_not_None :
  (_raw_execute variable_of (mapper note) no_state (kw1 "a" (ints [1; 2; 3])) []).2
  = Ok (VTuple [])
  ∧ (_raw_execute variable_of (mapper note) no_state (kw1 "a" (ints [1; 2; 3])) []).2
    ≠ Ok VNone.
Proof. split; [run | vm_compute; discriminate]. Qed.

Lemma raw_execute_no_outputs_witness :
  _raw_execute variable_of (mapper note) no_state (kw1 "a" (ints [1; 2; 3])) []
  = ([kw1 "a" (VInt 1); kw1 "a" (VInt 2); kw1 "a" (VInt 3)], Ok (VTuple [])).
Proof.
  refine (raw_execute_no_outputs variable_of note None no_state
            (kw1 "a" (ints [1; 2; 3])) "a" int [] (ints [1; 2; 3]) 3
            (λ i _, VInt (Z.of_nat i + 1)) [] eq_refl eq_refl eq_refl eq_refl _).
  intros [|[|[|i]]] key Hi Hkey; try lia; in_names Hkey; run.
Defined.

(** C1, at the single-output task of the claim's own example. The task
    function doubles an integer and [execute] hands its value back as it
    is, the way [_raw_execute] itself hands back a bare collection for a
    single output. The subscript [o[x]] of the loop then raises [TypeError]
    at position 0: [[2, 4, 6]] is not produced. For a single string output
    the same subscript keeps the first character of each value. *)
Theorem raw_execute_single_bare_output :
  _raw_execute variable_of (mapper double) no_state (kw1 "a" (ints [1; 2; 3])) []
  = ([kw1 "a" (VInt 1)], Raise TypeError)
  ∧ _raw_execute variable_of (mapper echo) no_state
      (kw1 "a" (VList [VStr "10"; VStr "7"])) []
    = ([kw1 "a" (VStr "10"); kw1 "a" (VStr "7")], Ok (VList [VStr "1"; VStr "7"])).
Proof. split; run. Qed.

(** * Further properties of the code *)

(** ** The index resolver: what a result tells about the environment *)

(** X1. A returned index is always a sum read off a well-formed
    environment: the indirection variable is set, the variable it names is
    set and holds an integer literal, and the offset is 0 when the offset
    variable is unset or empty and its parsed value otherwise. The values
    parsed are ASCII strings. *)
Theorem compute_array_job_index_inv (environ : gmap string string) (z : Z) :
  ascii_value environ BATCH_JOB_ARRAY_INDEX_OFFSET →
  (∀ name, environ !! BATCH_JOB_ARRAY_INDEX_VAR_NAME = Some name →
           ascii_value environ name) →
  _compute_array_job_index environ = Ok z →
  ∃ name raw index offset,
    environ !! BATCH_JOB_ARRAY_INDEX_VAR_NAME = Some name
    ∧ environ !! name = Some raw
    ∧ py_int (Some raw) = Ok index
    ∧ (if truthy (environ !! BATCH_JOB_ARRAY_INDEX_OFFSET)
       then py_int (environ !! BATCH_JOB_ARRAY_INDEX_OFFSET) = Ok offset
       else offset = 0)
    ∧ z = offset + index.
Proof.
  unfold _compute_array_job_index. cbn [environ_get mbind result_bind].
  intros _ _ H.
  assert (Hchain : ∀ offset,
             (environ_get environ (environ !! BATCH_JOB_ARRAY_INDEX_VAR_NAME)
              ≫= λ raw, py_int raw ≫= λ index, Ok (offset + index)) = Ok z →
             ∃ name raw index,
               environ !! BATCH_JOB_ARRAY_INDEX_VAR_NAME = Some name
               ∧ environ !! name = Some raw
               ∧ py_int (Some raw) = Ok index ∧ z = offset + index).
  { intros offset Hz.
    destruct (environ !! BATCH_JOB_ARRAY_INDEX_VAR_NAME) as [name|];
      cbn [environ_get mbind result_bind] in Hz; [|discriminate].
    destruct (environ !! name) as [raw|] eqn:Hr; [|cbn in Hz; discriminate].
    destruct (py_int (Some raw)) as [index|e] eqn:Hi;
      cbn [mbind result_bind] in Hz; [|discriminate].
    injection Hz as <-. exists name, raw, index. auto. }
  destruct (truthy (environ !! BATCH_JOB_ARRAY_INDEX_OFFSET)) eqn:Ht.
  - destruct (py_int (environ !! BATCH_JOB_ARRAY_INDEX_OFFSET)) as [offset|e] eqn:Ho;
      cbn [mbind result_bind] in H; [|discriminate].
    destruct (Hchain offset H) as (name & raw & index & Hn & Hr & Hi & ->).
    exists name, raw, index, offset. auto.
  - cbn [mbind result_bind] in H.
    destruct (Hchain 0 H) as (name & raw & index & Hn & Hr & Hi & ->).
    exists name, raw, index, 0. auto.
Qed.

Lemma compute_array_job_index_inv_witness :
  ∃ name raw index offset,
    Samples.environ_B !! BATCH_JOB_ARRAY_INDEX_VAR_NAME = Some name
    ∧ Samples.environ_B !! name = Some raw
    ∧ py_int (Some raw) = Ok index
    ∧ (if truthy (Samples.environ_B !! BATCH_JOB_ARRAY_INDEX_OFFSET)
       then py_int (Samples.environ_B !! BATCH_JOB_ARRAY_INDEX_OFFSET) = Ok offset
       else offset = 0)
    ∧ 11 = offset + index.
Proof.
  apply compute_array_job_index_inv.
  - intros v Hv. vm_compute in Hv. injection Hv as <-. reflexivity.
  - intros name Hname v Hv. vm_compute in Hname. injection Hname as <-.
    vm_compute in Hv. injection Hv as <-. reflexivity.
  - vm_compute. reflexivity.
Defined.

(** X2. The resolver reads three variables only: the offset variable, the
    indirection variable and the variable that one names. Environments that
    agree on them resolve alike, value or exception. *)
Theorem compute_array_job_index_frame (environ1 environ2 : gmap string string) :
  environ1 !! BATCH_JOB_ARRAY_INDEX_OFFSET = environ2 !! BATCH_JOB_ARRAY_INDEX_OFFSET →
  environ1 !! BATCH_JOB_ARRAY_INDEX_VAR_NAME = environ2 !! BATCH_JOB_ARRAY_INDEX_VAR_NAME →
  (∀ name, environ1 !! BATCH_JOB_ARRAY_INDEX_VAR_NAME = Some name →
           environ1 !! name = environ2 !! name) →
  _compute_array_job_index environ1 = _compute_array_job_index environ2.
Proof.
  intros Hoff Hvar Hnamed.
  unfold _compute_array_job_index. cbn [environ_get mbind result_bind].
  rewrite <- Hoff, <- Hvar.
  destruct (if truthy _ then _ else _) as [offset|e]; [|reflexivity].
  destruct (environ1 !! BATCH_JOB_ARRAY_INDEX_VAR_NAME) as [name|] eqn:Hn; [|reflexivity].
  cbn [environ_get]. rewrite (Hnamed name eq_refl). reflexivity.
Qed.

Lemma compute_array_job_index_frame_witness :
  _compute_array_job_index Samples.environ_1
  = _compute_array_job_index (<["HOME" := "/root"]> Samples.environ_1).
Proof.
  apply compute_array_job_index_frame.
  - vm_compute. reflexivity.
  - vm_compute. reflexivity.
  - intros name Hname. vm_compute in Hname. injection Hname as <-.
    vm_compute. reflexivity.
Defined.

(** X3. The resolver raises nothing but [ValueError] and [TypeError]: a
    [ValueError] for an offset or a raw index that is set but is no integer
    literal, a [TypeError] for an indirection variable, or a variable named
    by it, that is unset. *)
Theorem compute_array_job_index_error_kinds (environ : gmap string string) (e : PyExn) :
  _compute_array_job_index environ = Raise e →
  (e = ValueError
   ∧ ((∃ o, environ !! BATCH_JOB_ARRAY_INDEX_OFFSET = Some o ∧ o ≠ ""
            ∧ PyInt.parse o = None)
      ∨ (∃ name raw, environ !! BATCH_JOB_ARRAY_INDEX_VAR_NAME = Some name
                     ∧ environ !! name = Some raw ∧ PyInt.parse raw = None)))
  ∨ (e = TypeError
     ∧ (environ !! BATCH_JOB_ARRAY_INDEX_VAR_NAME = None
        ∨ ∃ name, environ !! BATCH_JOB_ARRAY_INDEX_VAR_NAME = Some name
                  ∧ environ !! name = None)).
Proof.
  unfold _compute_array_job_index. cbn [environ_get mbind result_bind].
  intros H.
  assert (Hchain : ∀ offset,
             (environ_get environ (environ !! BATCH_JOB_ARRAY_INDEX_VAR_NAME)
              ≫= λ raw, py_int raw ≫= λ index, Ok (offset + index)) = Raise e →
             (e = ValueError
              ∧ ∃ name raw, environ !! BATCH_JOB_ARRAY_INDEX_VAR_NAME = Some name
                            ∧ environ !! name = Some raw ∧ PyInt.parse raw = None)
             ∨ (e = TypeError
                ∧ (environ !! BATCH_JOB_ARRAY_INDEX_VAR_NAME = None
                   ∨ ∃ name, environ !! BATCH_JOB_ARRAY_INDEX_VAR_NAME = Some name
                             ∧ environ !! name = None))).
  { intros offset He.
    destruct (environ !! BATCH_JOB_ARRAY_INDEX_VAR_NAME) as [name|];
      cbn [environ_get mbind result_bind] in He;
      [|injection He as <-; right; auto].
    destruct (environ !! name) as [raw|] eqn:Hr;
      cbn [py_int mbind result_bind] in He;
      [|injection He as <-; right; split; [reflexivity | right; eauto]].
    destruct (PyInt.parse raw) eqn:Hp; cbn [mbind result_bind] in He; [discriminate|].
    injection He as <-. left. split; [reflexivity | eauto]. }
  destruct (environ !! BATCH_JOB_ARRAY_INDEX_OFFSET) as [o|] eqn:Ho; cbn [truthy] in H.
  - destruct (String.eqb_spec o "") as [->|Hne]; cbn [negb] in H.
    + cbn [mbind result_bind] in H.
      destruct (Hchain 0 H) as [[-> Hc] | Hc]; [left; split; [reflexivity | right; exact Hc] |].
      right. exact Hc.
    + cbn [py_int] in H. destruct (PyInt.parse o) as [offset|] eqn:Hpo;
        cbn [mbind result_bind] in H.
      * destruct (Hchain offset H) as [[-> Hc] | Hc];
          [left; split; [reflexivity | right; exact Hc] |].
        right. exact Hc.
      * injection H as <-. left. split; [reflexivity | left; eauto].
  - cbn [mbind result_bind] in H.
    destruct (Hchain 0 H) as [[-> Hc] | Hc]; [left; split; [reflexivity | right; exact Hc] |].
    right. exact Hc.
Qed.

Lemma compute_array_job_index_error_kinds_witness :
  (ValueError = ValueError
   ∧ ((∃ o, (<[BATCH_JOB_ARRAY_INDEX_OFFSET := "ten"]> Samples.environ_1)
              !! BATCH_JOB_ARRAY_INDEX_OFFSET = Some o ∧ o ≠ "" ∧ PyInt.parse o = None)
      ∨ (∃ name raw,
            (<[BATCH_JOB_ARRAY_INDEX_OFFSET := "ten"]> Samples.environ_1)
              !! BATCH_JOB_ARRAY_INDEX_VAR_NAME = Some name
            ∧ (<[BATCH_JOB_ARRAY_INDEX_OFFSET := "ten"]> Samples.environ_1) !! name = Some raw
            ∧ PyInt.parse raw = None)))
  ∨ (ValueError = TypeError
     ∧ ((<[BATCH_JOB_ARRAY_INDEX_OFFSET := "ten"]> Samples.environ_1)
          !! BATCH_JOB_ARRAY_INDEX_VAR_NAME = None
        ∨ ∃ name,
            (<[BATCH_JOB_ARRAY_INDEX_OFFSET := "ten"]> Samples.environ_1)
              !! BATCH_JOB_ARRAY_INDEX_VAR_NAME = Some name
            ∧ (<[BATCH_JOB_ARRAY_INDEX_OFFSET := "ten"]> Samples.environ_1) !! name = None)).
Proof.
  apply compute_array_job_index_error_kinds. vm_compute. reflexivity.
Defined.

(** ** The output-interface queries, continued *)

Lemma interface_getitem_elem {T} (d : list (string * T)) (k : string) :
  (k ∈ keys d → ∃ x, interface_getitem d k = Ok x)
  ∧ (k ∉ keys d → interface_getitem d k = Raise KeyError).
Proof.
  unfold keys. induction d as [|[k' x] d [IHin IHout]]; cbn.
  - split; [intros H; inversion H | reflexivity].
  - destruct (String.eqb_spec k' k) as [->|Hne].
    + split; [eauto | intros H; exfalso; apply H; left].
    + split.
      * intros [Heq|Hin]%elem_of_cons; [congruence | auto].
      * intros Hnin. apply IHout. intros Hin. apply Hnin. right. exact Hin.
Qed.

Lemma interface_getitem_typed {T U} (g : T → string → U) (d : list (string * T)) (k : string) :
  interface_getitem ((λ kv, (kv.1, g kv.2 kv.1)) <$> d) k
  = (λ x, g x k) <$> interface_getitem d k.
Proof.
  induction d as [|[k' x] d IH]; [reflexivity|].
  cbn. destruct (String.eqb_spec k' k) as [->|Hne]; [reflexivity | exact IH].
Qed.

Section QueryFacts.

Context {S Variable' : Type} (transform_type : pytype → string → Variable').

(** X4. [get_type_for_output_var] knows exactly the output names of the
    wrapped task, in every context: it returns a type for a declared
    output and raises [KeyError] for any other name. *)
Theorem get_type_for_output_var_declared (t : PythonFunctionTask S) (conc : option Z)
    (ctx : FlyteContext) (k : string) (v : PyVal) :
  (k ∈ keys (outputs (python_interface t)) →
     ∃ T, get_type_for_output_var (MapPythonTask_init t conc) ctx k v = Ok T)
  ∧ (k ∉ keys (outputs (python_interface t)) →
     get_type_for_output_var (MapPythonTask_init t conc) ctx k v = Raise KeyError).
Proof.
  unfold get_type_for_output_var.
  destruct (in_mode ctx LOCAL_WORKFLOW_EXECUTION); cbn [_python_interface _run_task
    MapPythonTask_init transform_interface_to_list_interface outputs].
  - rewrite <- (keys_prod_map PyList (outputs (python_interface t))).
    apply interface_getitem_elem.
  - apply interface_getitem_elem.
Qed.

(** X5. The two queries agree with each other in every context: the
    variable [_outputs_interface] holds under a name is the typed form of
    the Python type [get_type_for_output_var] returns for that name, and
    both raise [KeyError] together. *)
Theorem outputs_interface_matches_type (self : MapPythonTask S) (ctx : FlyteContext)
    (k : string) (v : PyVal) :
  interface_getitem (_outputs_interface transform_type self ctx) k
  = (λ T, transform_type T k) <$> get_type_for_output_var self ctx k v.
Proof.
  unfold _outputs_interface, get_type_for_output_var, interface, task_interface.
  destruct (in_mode ctx LOCAL_WORKFLOW_EXECUTION);
    apply (interface_getitem_typed transform_type).
Qed.

End QueryFacts.

Lemma get_type_for_output_var_declared_witness :
  (∃ T, get_type_for_output_var (Samples.mapper Samples.both)
          (Samples.in_state LOCAL_WORKFLOW_EXECUTION) "o1" VNone = Ok T)
  ∧ get_type_for_output_var (Samples.mapper Samples.both)
      (Samples.in_state LOCAL_WORKFLOW_EXECUTION) "o2" VNone = Raise KeyError.
Proof.
  split.
  - apply (proj1 (get_type_for_output_var_declared Samples.both None _ "o1" VNone)).
    cbn. right. left.
  - apply (proj2 (get_type_for_output_var_declared Samples.both None _ "o2" VNone)).
    cbn. intros H. repeat (apply elem_of_cons in H as [H|H]; [discriminate|]).
    inversion H.
Defined.

(** ** Local runs: edge cases and what a returned value tells *)

Lemma fmap_seq_const {A} (x : A) (a k : nat) :
  (λ _, x) <$> seq a k = replicate k x.
Proof.
  revert a. induction k as [|k IH]; intros a; [reflexivity|].
  cbn. f_equal. apply IH.
Qed.

Lemma read_slot_missing (kwargs : gmap string PyVal) (i : Z) (k : string) :
  kwargs !! k = None → read_slot kwargs i k = Raise KeyError.
Proof. intros Hk. unfold read_slot. cbn. rewrite Hk. reflexivity. Qed.

Lemma read_slot_lookup (kw1 kw2 : gmap string PyVal) (i : Z) (k : string) :
  kw1 !! k = kw2 !! k → read_slot kw1 i k = read_slot kw2 i k.
Proof. intros Hk. unfold read_slot. cbn. rewrite Hk. reflexivity. Qed.

(** A declared input that cannot be read stops the reading of a position. *)
Lemma index_inputs_unreadable (ks : list string) (kwargs : gmap string PyVal) (i : Z)
    (d : gmap string PyVal) (key : string) :
  key ∈ ks → is_ok (read_slot kwargs i key) = false →
  ∃ e, index_inputs ks kwargs i d = Raise e.
Proof.
  revert d. induction ks as [|k ks IH]; intros d Hkey Hbad; [inversion Hkey|].
  rewrite index_inputs_cons.
  destruct (read_slot kwargs i k) as [v|e] eqn:Hk; [|eauto].
  cbn. apply IH; [|exact Hbad].
  apply elem_of_cons in Hkey as [->|Hin]; [|exact Hin].
  rewrite Hk in Hbad. discriminate.
Qed.

Lemma append_outputs_inv (o : PyVal) (x : Z) (outs outs' : list (list PyVal)) :
  append_outputs o x outs = Ok outs' →
  length outs' = length outs
  ∧ ∀ (j : nat) acc, outs !! j = Some acc →
      ∃ v, py_getitem o (x + Z.of_nat j) = Ok v ∧ outs' !! j = Some (acc ++ [v])%list.
Proof.
  revert x outs'. induction outs as [|a outs IH]; intros x outs'.
  - intros [= <-]. split; [reflexivity|]. intros j acc Hj. inversion Hj.
  - cbn [append_outputs].
    destruct (py_getitem o x) as [v|e] eqn:Hv; [|discriminate].
    cbn [mbind result_bind].
    destruct (append_outputs o (x + 1) outs) as [rest'|e] eqn:Hrest; [|discriminate].
    cbn [mbind result_bind]. intros [= <-].
    destruct (IH _ _ Hrest) as [Hlen Hget].
    split; [cbn; f_equal; exact Hlen|].
    intros [|j] acc Hj.
    + injection Hj as <-. exists v. rewrite Z.add_0_r. auto.
    + destruct (Hget j acc Hj) as (w & Hw & Hw').
      exists w. split; [|exact Hw'].
      rewrite <- Hw. f_equal. lia.
Qed.

Lemma accumulate_inv (os : list PyVal) (outs outs' : list (list PyVal)) :
  accumulate true os outs = Ok outs' →
  length outs' = length outs
  ∧ ∀ (j : nat) acc, outs !! j = Some acc →
      ∃ col, outs' !! j = Some (acc ++ col)%list
             ∧ Forall2 (λ o v, py_getitem o (Z.of_nat j) = Ok v) os col.
Proof.
  revert outs. induction os as [|o os IH]; intros outs.
  - intros [= <-]. split; [reflexivity|].
    intros j acc Hj. exists []. rewrite app_nil_r. auto.
  - cbn [accumulate].
    destruct (append_outputs o 0 outs) as [outs1|e] eqn:Happ; [|discriminate].
    cbn [mbind result_bind]. intros Hacc.
    destruct (append_outputs_inv _ _ _ _ Happ) as [Hlen1 Hget1].
    destruct (IH _ Hacc) as [Hlen Hget].
    split; [congruence|].
    intros j acc Hj.
    destruct (Hget1 j acc Hj) as (v & Hv & Hj1).
    destruct (Hget j _ Hj1) as (col & Hcol & Hall).
    exists (v :: col). rewrite <- app_assoc in Hcol. split; [exact Hcol|].
    constructor; [exact Hv | exact Hall].
Qed.

Section ReturnedRuns.

Context {S Variable' : Type} (transform_type : pytype → string → Variable').

Implicit Types (t : PythonFunctionTask S) (self : MapPythonTask S).
Implicit Types (ctx : FlyteContext) (st : S) (conc : option Z).
Implicit Types (kwargs : gmap string PyVal) (outs : list (list PyVal)).

Local Abbreviation init := (@MapPythonTask_init S).
Local Abbreviation loop := (raw_execute_loop transform_type).
Local Abbreviation input_keys self := (keys (inputs (interface transform_type self))).
Local Abbreviation raw_outputs := (raw_execute_outputs transform_type).
Local Abbreviation raw := (_raw_execute transform_type).

(** The steps of [_raw_execute] before its loop, for a task with a first
    declared input [k0]. *)
Lemma raw_execute_outputs_cases t conc ctx kwargs k0 T0 rest st :
  inputs (python_interface t) = (k0, T0) :: rest →
  raw_outputs (init t conc) ctx kwargs st
  = match kwargs !! k0 with
    | Some c =>
        match py_len c with
        | Ok n =>
            loop (init t conc) kwargs (outputs_expected transform_type (init t conc))
              (range n) (initial_outputs transform_type (init t conc) ctx) st
        | Raise e => (st, Raise e)
        end
    | None => (st, Raise KeyError)
    end.
Proof.
  intros Hin.
  destruct (kwargs !! k0) as [c|] eqn:Hk0.
  - destruct (py_len c) as [n|e] eqn:Hlen.
    + apply (raw_execute_outputs_loop transform_type _ _ _ _ _ _ _ _ _ _ Hin Hk0 Hlen).
    + unfold raw_execute_outputs. cbn [_run_task MapPythonTask_init].
      rewrite keys_inputs_task_interface, Hin.
      change 0 with (Z.of_nat 0). rewrite seq_getitem_nat.
      cbn [keys fmap list_fmap fst lookup list_lookup]. unfold items_is_not_None.
      cbn [mbind result_bind]. rewrite exec_bind_lift_ok.
      cbn [dict_getitem]. rewrite Hk0, exec_bind_lift_ok, Hlen. reflexivity.
  - unfold raw_execute_outputs. cbn [_run_task MapPythonTask_init].
    rewrite keys_inputs_task_interface, Hin.
    change 0 with (Z.of_nat 0). rewrite seq_getitem_nat.
    cbn [keys fmap list_fmap fst lookup list_lookup]. unfold items_is_not_None.
    cbn [mbind result_bind]. rewrite exec_bind_lift_ok.
    cbn [dict_getitem]. rewrite Hk0. reflexivity.
Qed.

(** A loop that returns has read every position, has been through the
    calls of [execute] on what it read, in order, and has accumulated their
    values. *)
Lemma loop_inv self kwargs oe (ps : list Z) outs outs' st st' :
  loop self kwargs oe ps outs st = (st', Ok outs') →
  ∃ rws os,
    Forall2 (λ p row, index_inputs (input_keys self) kwargs p ∅ = Ok row) ps rws
    ∧ execute_each (_run_task self) rws st = (st', Ok os)
    ∧ accumulate oe os outs = Ok outs'.
Proof.
  revert outs st. induction ps as [|p ps IH]; intros outs st.
  - intros [= <- <-]. exists [], []. repeat split. constructor.
  - rewrite loop_cons.
    destruct (index_inputs _ _ _ _) as [row|e] eqn:Hrow; [|discriminate].
    destruct (task_execute _ row st) as [st1 [o|e]] eqn:Hcall; [|discriminate].
    destruct (if oe then _ else _) as [outs1|e] eqn:Happ; [|discriminate].
    intros Hrest. destruct (IH _ _ Hrest) as (rws & os & Hrows & Hcalls & Hacc).
    exists (row :: rws), (o :: os). split; [|split].
    + constructor; assumption.
    + rewrite (execute_each_cons _ row rws st), Hcall, Hcalls. reflexivity.
    + cbn [accumulate]. rewrite Happ. exact Hacc.
Qed.

(** X6. The value [_raw_execute] computes does not depend on the ambient
    context: the two output interfaces it consults declare the same
    names, so the number of accumulators is the same in every mode. *)
Theorem raw_execute_context_independent t conc (ctx1 ctx2 : FlyteContext) kwargs st :
  raw (init t conc) ctx1 kwargs st = raw (init t conc) ctx2 kwargs st.
Proof.
  unfold _raw_execute, raw_execute_outputs.
  rewrite !initial_outputs_init. reflexivity.
Qed.

(** X7. An empty first collection gives an empty batch: no call of
    [execute], no other input read (it may even be missing), and one empty
    accumulator per declared output, returned bare when there is exactly
    one. *)
Theorem raw_execute_empty_batch t conc ctx kwargs k0 T0 rest (c : PyVal) st :
  let k := length (outputs (python_interface t)) in
  inputs (python_interface t) = (k0, T0) :: rest →
  kwargs !! k0 = Some c →
  py_len c = Ok 0%nat →
  raw (init t conc) ctx kwargs st
  = (st, Ok (if decide (k = 1%nat) then VList [] else VTuple (replicate k (VList [])))).
Proof.
  intros k Hin Hk0 Hlen.
  rewrite raw_execute_of_outputs, (raw_execute_outputs_cases _ _ _ _ _ _ _ _ Hin).
  rewrite Hk0, Hlen. cbn [range seq fmap list_fmap raw_execute_loop]. unfold exec_ret.
  rewrite initial_outputs_init. fold k.
  destruct k as [|[|k']]; [reflexivity | reflexivity |].
  rewrite decide_False by lia.
  rewrite fmap_seq_const. cbn [replicate fmap list_fmap].
  do 3 f_equal. rewrite fmap_replicate. reflexivity.
Qed.

(** X8. A declared input that is missing from the keyword arguments makes
    a run over a non-empty first collection fail before any call of
    [execute]: the state is the initial one. *)
Theorem raw_execute_missing_input t conc ctx kwargs k0 T0 rest (key : string) st :
  inputs (python_interface t) = (k0, T0) :: rest →
  key ∈ keys (inputs (python_interface t)) →
  kwargs !! key = None →
  (∀ c, kwargs !! k0 = Some c → py_len c ≠ Ok 0%nat) →
  ∃ e, raw (init t conc) ctx kwargs st = (st, Raise e).
Proof.
  intros Hin Hkey Hmiss Hnonempty.
  rewrite raw_execute_of_outputs, (raw_execute_outputs_cases _ _ _ _ _ _ _ _ Hin).
  destruct (kwargs !! k0) as [c|] eqn:Hk0; [|eauto].
  destruct (py_len c) as [[|n]|e] eqn:Hlen; [|  |eauto].
  - exfalso. exact (Hnonempty c eq_refl Hlen).
  - change (range (Datatypes.S n)) with (0 :: (Z.of_nat <$> seq 1 n)).
    rewrite loop_cons, keys_inputs_interface.
    destruct (index_inputs_unreadable _ kwargs 0 ∅ key Hkey) as [e ->]; [|eauto].
    rewrite (read_slot_missing _ _ _ Hmiss). reflexivity.
Qed.

(** X9. [_raw_execute] reads the keyword arguments under the declared
    input names only: keyword dictionaries that agree on those names give
    the same run, whatever else they hold. *)
Theorem raw_execute_reads_declared_inputs_only t conc ctx (kw1 kw2 : gmap string PyVal) st :
  (∀ key, key ∈ keys (inputs (python_interface t)) → kw1 !! key = kw2 !! key) →
  raw (init t conc) ctx kw1 st = raw (init t conc) ctx kw2 st.
Proof.
  intros Hagree. rewrite !raw_execute_of_outputs.
  destruct (inputs (python_interface t)) as [|[k0 T0] rest] eqn:Hin.
  - unfold raw_execute_outputs. cbn [_run_task MapPythonTask_init].
    rewrite keys_inputs_task_interface, Hin. reflexivity.
  - rewrite !(raw_execute_outputs_cases _ _ _ _ _ _ _ _ Hin).
    rewrite <- (Hagree k0) by left.
    destruct (kw1 !! k0) as [c|]; [|reflexivity].
    destruct (py_len c) as [n|e]; [|reflexivity].
    rewrite (loop_ext transform_type _ kw1 kw2); [reflexivity|].
    intros i key _ Hkey. rewrite keys_inputs_interface, Hin in Hkey.
    apply read_slot_lookup, Hagree. exact Hkey.
Qed.

(** X10. Whatever [execute] does, a value returned by [_raw_execute] has
    the batch shape: one accumulator per declared output, each as long as
    the first collection; a list when one output is declared, a tuple of
    lists otherwise. *)
Theorem raw_execute_returned_shape t conc ctx kwargs k0 T0 rest (c : PyVal) (n : nat)
    (r : PyVal) st st' :
  let k := length (outputs (python_interface t)) in
  inputs (python_interface t) = (k0, T0) :: rest →
  kwargs !! k0 = Some c →
  py_len c = Ok n →
  raw (init t conc) ctx kwargs st = (st', Ok r) →
  ∃ outs, length outs = k
          ∧ Forall (λ acc, length acc = n) outs
          ∧ ((∃ acc, outs = [acc] ∧ r = VList acc)
             ∨ (k ≠ 1%nat ∧ r = VTuple (VList <$> outs))).
Proof.
  intros k Hin Hk0 Hlen.
  rewrite raw_execute_of_outputs, (raw_execute_outputs_cases _ _ _ _ _ _ _ _ Hin).
  rewrite Hk0, Hlen.
  destruct (loop _ _ _ _ _ _) as [st1 [outs|e]] eqn:Hloop.
  2:{ discriminate. }
  intros Hr.
  destruct (loop_inv _ _ _ _ _ _ _ _ Hloop) as (rws & os & Hrows & Hcalls & Hacc).
  assert (Hos : length os = n).
  { rewrite (execute_each_length _ _ _ _ _ Hcalls), <- (Forall2_length _ _ _ Hrows).
    unfold range. rewrite length_fmap, length_seq. reflexivity. }
  rewrite initial_outputs_init, outputs_expected_init in Hacc. fold k in Hacc.
  assert (Hshape : length outs = k ∧ Forall (λ acc, length acc = n) outs).
  { destruct k as [|k'] eqn:Hk.
    - rewrite accumulate_no_outputs in Hacc. injection Hacc as <-.
      split; [reflexivity | constructor].
    - cbn [Nat.eqb negb] in Hacc.
      destruct (accumulate_inv _ _ _ Hacc) as [Hl Hget].
      rewrite length_fmap, length_seq in Hl. split; [exact Hl|].
      apply Forall_lookup. intros j acc Hj.
      assert (Hjk : (j < Datatypes.S k')%nat) by (rewrite <- Hl; eapply lookup_lt_Some; eauto).
      destruct (Hget j []) as (col & Hcol & Hall).
      { rewrite list_lookup_fmap, lookup_seq_lt by exact Hjk. reflexivity. }
      rewrite Hj in Hcol. injection Hcol as ->.
      rewrite <- (Forall2_length _ _ _ Hall). exact Hos. }
  destruct Hshape as [Hl Hall].
  exists outs. split; [exact Hl|]. split; [exact Hall|].
  destruct outs as [|acc [|acc' outs]].
  - right. injection Hr as _ <-. split; [cbn in Hl; lia | reflexivity].
  - left. injection Hr as _ <-. eauto.
  - right. injection Hr as _ <-. split; [cbn in Hl; lia | reflexivity].
Qed.

(** X11. When [_raw_execute] returns a value, every position below the
    length of the first collection has been read, and the state is the one
    left by calling [execute] once per position, in position order, on what
    was read there. *)
Theorem raw_execute_success_calls t conc ctx kwargs k0 T0 rest (c : PyVal) (n : nat)
    (r : PyVal) st st' :
  inputs (python_interface t) = (k0, T0) :: rest →
  kwargs !! k0 = Some c →
  py_len c = Ok n →
  raw (init t conc) ctx kwargs st = (st', Ok r) →
  ∃ rws os,
    Forall2 (λ p row, index_inputs (keys (inputs (python_interface t))) kwargs p ∅ = Ok row)
      (range n) rws
    ∧ execute_each t rws st = (st', Ok os)
    ∧ length os = n.
Proof.
  intros Hin Hk0 Hlen.
  rewrite raw_execute_of_outputs, (raw_execute_outputs_cases _ _ _ _ _ _ _ _ Hin).
  rewrite Hk0, Hlen.
  destruct (loop _ _ _ _ _ _) as [st1 [outs|e]] eqn:Hloop.
  2:{ discriminate. }
  intros Hr.
  assert (st1 = st') as ->.
  { destruct outs as [|acc [|acc' outs]]; injection Hr as -> _; reflexivity. }
  destruct (loop_inv _ _ _ _ _ _ _ _ Hloop) as (rws & os & Hrows & Hcalls & _).
  rewrite keys_inputs_interface in Hrows.
  exists rws, os. split; [exact Hrows|]. split; [exact Hcalls|].
  rewrite (execute_each_length _ _ _ _ _ Hcalls), <- (Forall2_length _ _ _ Hrows).
  unfold range. rewrite length_fmap, length_seq. reflexivity.
Qed.

End ReturnedRuns.

(** ** Distributed runs: failures, negative indices, and the local run *)

Lemma index_inputs_reads (ks : list string) (kw1 kw2 : gmap string PyVal) (i1 i2 : Z)
    (d : gmap string PyVal) :
  (∀ k, k ∈ ks → read_slot kw1 i1 k = read_slot kw2 i2 k) →
  index_inputs ks kw1 i1 d = index_inputs ks kw2 i2 d.
Proof.
  revert d. induction ks as [|k ks IH]; intros d Hagree; [reflexivity|].
  rewrite !index_inputs_cons. rewrite <- (Hagree k) by left.
  destruct (read_slot kw1 i1 k) as [v|e]; [|reflexivity].
  cbn. apply IH. intros k' Hk'. apply Hagree. right. exact Hk'.
Qed.

Lemma index_inputs_out_of_range (ks : list string) (kwargs : gmap string PyVal)
    (cols : string → list PyVal) (i : nat) (d : gmap string PyVal) :
  (∀ k, k ∈ ks → kwargs !! k = Some (VList (cols k))) →
  (∃ k, k ∈ ks ∧ (length (cols k) ≤ i)%nat) →
  index_inputs ks kwargs (Z.of_nat i) d = Raise IndexError.
Proof.
  revert d. induction ks as [|k ks IH]; intros d Hcols (k1 & Hk1 & Hshort).
  - inversion Hk1.
  - rewrite index_inputs_cons.
    rewrite (read_slot_list _ _ _ _ (Hcols k ltac:(left))).
    destruct (cols k !! i) as [v|] eqn:Hv; [|reflexivity].
    cbn. apply IH.
    + intros k' Hk'. apply Hcols. right. exact Hk'.
    + exists k1. split; [|exact Hshort].
      apply elem_of_cons in Hk1 as [->|Hin]; [|exact Hin].
      apply lookup_lt_Some in Hv. lia.
Qed.

Lemma seq_getitem_negative {A} (l : list A) (s : Z) :
  - Z.of_nat (length l) ≤ s < 0 →
  seq_getitem l s = seq_getitem l (s + Z.of_nat (length l)).
Proof.
  intros Hs. unfold seq_getitem. cbv zeta.
  assert (Hneg : (s <? 0) = true) by (apply Z.ltb_lt; lia).
  assert (Hpos : (s + Z.of_nat (length l) <? 0) = false) by (apply Z.ltb_ge; lia).
  rewrite Hneg, Hpos. cbv iota. rewrite ?Hpos. reflexivity.
Qed.

Section DistributedRuns.

Context {S Variable' : Type} (transform_type : pytype → string → Variable').

Implicit Types (t : PythonFunctionTask S) (self : MapPythonTask S).
Implicit Types (ctx : FlyteContext) (st : S) (conc : option Z).
Implicit Types (kwargs : gmap string PyVal) (environ : gmap string string).

Local Abbreviation init := (@MapPythonTask_init S).
Local Abbreviation slot_run := (_execute_map_task transform_type).

Lemma execute_map_task_resolved t conc environ kwargs (s : Z) st :
  _compute_array_job_index environ = Ok s →
  slot_run (init t conc) environ kwargs st
  = match index_inputs (keys (inputs (python_interface t))) kwargs s ∅ with
    | Ok row => task_execute t row st
    | Raise e => (st, Raise e)
    end.
Proof.
  intros Hs. unfold _execute_map_task. rewrite Hs, exec_bind_lift_ok.
  rewrite keys_inputs_interface.
  destruct (index_inputs _ _ _ _); reflexivity.
Qed.

(** X12. In distributed mode the wrapped task is not called when the slot
    cannot be set up: an index that does not resolve, or a declared input
    that cannot be read at the index, ends [execute] with an exception and
    the initial state. *)
Theorem execute_fails_before_call t conc ctx environ kwargs st :
  in_mode ctx TASK_EXECUTION = true →
  (∀ e, _compute_array_job_index environ = Raise e →
        execute transform_type (init t conc) ctx environ kwargs st = (st, Raise e))
  ∧ (∀ s key, _compute_array_job_index environ = Ok s →
              key ∈ keys (inputs (python_interface t)) →
              is_ok (read_slot kwargs s key) = false →
              ∃ e, execute transform_type (init t conc) ctx environ kwargs st
                   = (st, Raise e)).
Proof.
  intros Hmode. unfold execute. rewrite Hmode. split.
  - intros e He. unfold _execute_map_task. rewrite He. reflexivity.
  - intros s key Hs Hkey Hbad. rewrite (execute_map_task_resolved _ _ _ _ _ _ Hs).
    destruct (index_inputs_unreadable _ kwargs s ∅ key Hkey Hbad) as [e ->]. eauto.
Qed.

(** X13. With every declared input bound to a list, a resolved index at or
    beyond the length of one of them is an [IndexError], raised before the
    wrapped task is called. *)
Theorem execute_map_task_index_out_of_range t conc environ kwargs
    (cols : string → list PyVal) (i : nat) st :
  _compute_array_job_index environ = Ok (Z.of_nat i) →
  (∀ key, key ∈ keys (inputs (python_interface t)) →
          kwargs !! key = Some (VList (cols key))) →
  (∃ key, key ∈ keys (inputs (python_interface t)) ∧ (length (cols key) ≤ i)%nat) →
  slot_run (init t conc) environ kwargs st = (st, Raise IndexError).
Proof.
  intros Hs Hcols Hshort. rewrite (execute_map_task_resolved _ _ _ _ _ _ Hs).
  rewrite (index_inputs_out_of_range _ _ cols i ∅ Hcols Hshort). reflexivity.
Qed.

(** X14. A negative resolved index is not refused: on lists of a common
    length [len] the index [s] with [-len <= s < 0] runs the slot
    [s + len], counted from the end. *)
Theorem execute_map_task_negative_index t conc (environ1 environ2 : gmap string string)
    kwargs (cols : string → list PyVal) (len : nat) (s : Z) st :
  _compute_array_job_index environ1 = Ok s →
  _compute_array_job_index environ2 = Ok (s + Z.of_nat len) →
  - Z.of_nat len ≤ s < 0 →
  (∀ key, key ∈ keys (inputs (python_interface t)) →
          kwargs !! key = Some (VList (cols key)) ∧ length (cols key) = len) →
  slot_run (init t conc) environ1 kwargs st = slot_run (init t conc) environ2 kwargs st.
Proof.
  intros Hs1 Hs2 Hs Hcols.
  rewrite (execute_map_task_resolved _ _ _ _ _ _ Hs1),
          (execute_map_task_resolved _ _ _ _ _ _ Hs2).
  rewrite (index_inputs_reads _ kwargs kwargs s (s + Z.of_nat len)); [reflexivity|].
  intros key Hkey. destruct (Hcols key Hkey) as [Hk Hlen].
  unfold read_slot. cbn [dict_getitem]. rewrite Hk. cbn [mbind result_bind py_getitem].
  rewrite <- Hlen. apply seq_getitem_negative. lia.
Qed.

Lemma execute_each_pure t (f : gmap string PyVal → result PyVal)
    (rws : list (gmap string PyVal)) (os : list PyVal) st st' :
  (∀ row st0, task_execute t row st0 = (st0, f row)) →
  execute_each t rws st = (st', Ok os) →
  st' = st ∧ Forall2 (λ row o, f row = Ok o) rws os.
Proof.
  intros Hpure. revert os. induction rws as [|row rws IH]; intros os.
  - intros [= <- <-]. split; [reflexivity | constructor].
  - rewrite execute_each_cons, Hpure.
    destruct (f row) as [o|e] eqn:Hrow; [|discriminate].
    destruct (execute_each t rws st) as [st2 [os'|e]] eqn:Hrest; [|discriminate].
    intros [= <- <-]. destruct (IH _ eq_refl) as [-> Hall].
    split; [reflexivity | constructor; assumption].
Qed.

(** X15. The two paths fit together. For a wrapped task whose [execute]
    leaves the state alone: when the local run returns its accumulators,
    the distributed run of any slot [s] below the batch length returns a
    value [o], and position [s] of accumulator [j] is the component [o[j]]
    of that value. *)
Theorem local_run_collects_slot_results t conc ctx environ kwargs k0 T0 rest
    (c : PyVal) (n s : nat) (f : gmap string PyVal → result PyVal)
    (outs : list (list PyVal)) st st' :
  (∀ row st0, task_execute t row st0 = (st0, f row)) →
  inputs (python_interface t) = (k0, T0) :: rest →
  kwargs !! k0 = Some c →
  py_len c = Ok n →
  raw_execute_outputs transform_type (init t conc) ctx kwargs st = (st', Ok outs) →
  (s < n)%nat →
  _compute_array_job_index environ = Ok (Z.of_nat s) →
  ∃ o, slot_run (init t conc) environ kwargs st = (st, Ok o)
       ∧ (outputs (python_interface t) ≠ [] →
          ∀ (j : nat) acc, outs !! j = Some acc →
            ∃ v, py_getitem o (Z.of_nat j) = Ok v ∧ acc !! s = Some v).
Proof.
  intros Hpure Hin Hk0 Hlen Hlocal Hs Hidx.
  rewrite (raw_execute_outputs_loop transform_type _ _ _ _ _ _ _ _ _ _ Hin Hk0 Hlen) in Hlocal.
  destruct (loop_inv _ _ _ _ _ _ _ _ _ Hlocal) as (rws & os & Hrows & Hcalls & Hacc).
  cbn [_run_task MapPythonTask_init] in Hcalls.
  destruct (execute_each_pure _ f _ _ _ _ Hpure Hcalls) as [-> Hvals].
  rewrite keys_inputs_interface in Hrows.
  assert (Hpos : range n !! s = Some (Z.of_nat s)).
  { unfold range. rewrite list_lookup_fmap, lookup_seq_lt by exact Hs. reflexivity. }
  destruct (Forall2_lookup_l _ _ _ _ _ Hrows Hpos) as (row & Hrow & Hread).
  destruct (Forall2_lookup_l _ _ _ _ _ Hvals Hrow) as (o & Ho & Hfo).
  exists o. split.
  - rewrite (execute_map_task_resolved _ _ _ _ _ _ Hidx), Hread, Hpure, Hfo. reflexivity.
  - intros Hout j acc Hj.
    rewrite initial_outputs_init, outputs_expected_init in Hacc.
    destruct (outputs (python_interface t)) as [|kv d] eqn:Hd; [contradiction|].
    cbn [length Nat.eqb negb] in Hacc.
    destruct (accumulate_inv _ _ _ Hacc) as [Hl Hget].
    rewrite length_fmap, length_seq in Hl.
    assert (Hjk : (j < Datatypes.S (length d))%nat)
      by (rewrite <- Hl; eapply lookup_lt_Some; eauto).
    destruct (Hget j []) as (col & Hcol & Hall).
    { rewrite list_lookup_fmap, lookup_seq_lt by exact Hjk. reflexivity. }
    rewrite Hj in Hcol. injection Hcol as ->.
    destruct (Forall2_lookup_l _ _ _ _ _ Hall Ho) as (v & Hv & Hov).
    exists v. split; assumption.
Qed.

End DistributedRuns.

(** ** The dispatcher's name and its container environment *)

Lemma list_ascii_of_string_app (s1 s2 : string) :
  list_ascii_of_string (s1 ++ s2)%string
  = (list_ascii_of_string s1 ++ list_ascii_of_string s2)%list.
Proof.
  induction s1 as [|c s1 IH]; [reflexivity|].
  change (String c s1 ++ s2)%string with (String c (s1 ++ s2)%string).
  cbn [list_ascii_of_string]. rewrite IH. reflexivity.
Qed.

Lemma list_ascii_of_string_inj (s1 s2 : string) :
  list_ascii_of_string s1 = list_ascii_of_string s2 → s1 = s2.
Proof.
  intros H. rewrite <- (string_of_list_ascii_of_string s1),
    <- (string_of_list_ascii_of_string s2), H. reflexivity.
Qed.

(** A character that occurs in neither tail marks the same cut in both
    lists. *)
Lemma app_cut_inj {A} (c : A) (m1 m2 x1 x2 : list A) :
  c ∉ x1 → c ∉ x2 →
  (m1 ++ c :: x1 = m2 ++ c :: x2)%list → m1 = m2 ∧ x1 = x2.
Proof.
  intros Hx1 Hx2. revert m2. induction m1 as [|a m1 IH]; intros [|b m2] H; cbn in H.
  - injection H as ->. auto.
  - injection H as <- ->. exfalso. apply Hx1. apply elem_of_app. right. left.
  - injection H as -> <-. exfalso. apply Hx2. apply elem_of_app. right. left.
  - injection H as -> H. destruct (IH _ H) as [-> ->]. auto.
Qed.

(** X16. The derived name tells wrapped functions apart: for function
    names without a dot (Python identifiers), two task functions with the
    same [mapper_] name have the same module and the same name. *)
Theorem mapper_name_injective (f1 f2 : TaskFunction) :
  "."%char ∉ list_ascii_of_string (fn_name f1) →
  "."%char ∉ list_ascii_of_string (fn_name f2) →
  mapper_name f1 = mapper_name f2 →
  f1 = f2.
Proof.
  destruct f1 as [m1 n1], f2 as [m2 n2]. unfold mapper_name. cbn [fn_module fn_name].
  intros Hn1 Hn2 H. apply (f_equal list_ascii_of_string) in H.
  rewrite !list_ascii_of_string_app in H.
  change (list_ascii_of_string ".mapper_")
    with ("."%char :: list_ascii_of_string "mapper_") in H.
  rewrite <- !app_comm_cons in H.
  apply app_cut_inj in H as [Hm Hn].
  - apply app_inv_head in Hn.
    apply list_ascii_of_string_inj in Hm, Hn. subst. reflexivity.
  - intros [Hin|Hin]%elem_of_app; [|contradiction].
    cbn in Hin. repeat (apply elem_of_cons in Hin as [Hin|Hin]; [discriminate|]).
    inversion Hin.
  - intros [Hin|Hin]%elem_of_app; [|contradiction].
    cbn in Hin. repeat (apply elem_of_cons in Hin as [Hin|Hin]; [discriminate|]).
    inversion Hin.
Qed.

Lemma mapper_name_injective_witness :
  {| fn_module := "pkg.tasks"; fn_name := "t1" |}
  = {| fn_module := "pkg.tasks"; fn_name := "t1" |}.
Proof.
  apply mapper_name_injective; try reflexivity;
    cbn; intros H; repeat (apply elem_of_cons in H as [H|H]; [discriminate|]);
    inversion H.
Defined.

(** Without the condition on the function name the derived names clash. *)
Example mapper_name_clash :
  mapper_name {| fn_module := "a"; fn_name := "b.mapper_c" |}
  = mapper_name {| fn_module := "a.mapper_b"; fn_name := "c" |}.
Proof. reflexivity. Qed.

(** X17. With an environment in the settings, the container environment is
    the settings' one overridden by the task's: a variable has the task's
    value if the task sets it and the settings' value otherwise. The
    shortcut for a task without variables gives the same mapping. *)
Theorem get_container_env_merge (environment : option (gmap string string))
    (se : gmap string string) :
  ∃ m, get_container_env environment (Some se) = Ok (Some m)
       ∧ ∀ k, m !! k = match environment ≫= (.!! k) with
                       | Some v => Some v
                       | None => se !! k
                       end.
Proof.
  destruct environment as [te|]; unfold get_container_env, dict_truthy.
  - destruct (decide (te = ∅)) as [->|Hne].
    + rewrite bool_decide_eq_true_2 by reflexivity. cbn [negb].
      exists se. split; [reflexivity|]. intros k. cbn. rewrite lookup_empty. reflexivity.
    + rewrite bool_decide_eq_false_2 by exact Hne. cbn [negb].
      exists (te ∪ se). split; [reflexivity|]. intros k. cbn.
      rewrite lookup_union. destruct (te !! k), (se !! k); reflexivity.
  - exists se. split; [reflexivity|]. intros k. reflexivity.
Qed.

(** X18. [get_container] computes its environment before it resolves the
    image: when the task sets variables while the settings carry no
    environment ([None]), it raises the [TypeError] of unpacking [None]
    whatever the two imported helpers would do; in every other case the
    environment step returns and the outcome, value or exception, is that
    of resolving the image and building the definition with that
    environment, an empty command and the arguments of [get_command]. *)
Theorem get_container_env_first {ImageConfig Image Container : Type}
    (image_of : ImageConfig → result Image)
    (definition : Image → list string → list string → option unit →
                  option (gmap string string) → result Container)
    (f : TaskFunction) (environment : option (gmap string string))
    (settings : SerializationSettings ImageConfig) :
  match env settings, dict_truthy environment with
  | None, true =>
      get_container image_of definition f environment settings = Raise TypeError
  | _, _ =>
      ∃ e, get_container_env environment (env settings) = Ok e
           ∧ get_container image_of definition f environment settings
             = (image ← image_of (image_config settings);
                definition image [] (get_command f settings) None e)
  end.
Proof.
  unfold get_container, get_container_env.
  destruct (env settings) as [se|]; destruct (dict_truthy environment) eqn:Ht.
  - destruct environment as [te|]; [|discriminate Ht].
    eexists. split; reflexivity.
  - eexists. split; reflexivity.
  - reflexivity.
  - eexists. split; reflexivity.
Qed.

Example get_container_env_first_example :
  get_container (Image := unit) (Container := unit)
    (λ _ : unit, Raise (UserException "no default image"))
    (λ _ _ _ _ _, Ok tt) {| fn_module := "m"; fn_name := "t" |}
    (Some {[ "A" := "1" ]}) {| env := None; image_config := tt |}
  = Raise TypeError
  ∧ get_container (Image := unit) (Container := unit)
      (λ _ : unit, Raise (UserException "no default image"))
      (λ _ _ _ _ _, Ok tt) {| fn_module := "m"; fn_name := "t" |}
      None {| env := None; image_config := tt |}
    = Raise (UserException "no default image").
Proof. split; vm_compute; reflexivity. Qed.

(** ** The BigQuery handlers: which table is addressed *)

Module BigQueryFacts.

Import BigQuery.

Lemma strip_prefix_app (p r : list ascii) : strip_prefix p (p ++ r) = Some r.
Proof. induction p as [|a p IH]; [reflexivity|]. cbn. rewrite Ascii.eqb_refl. exact IH. Qed.

Lemma strip_prefix_Some (p s r : list ascii) :
  strip_prefix p s = Some r → s = (p ++ r)%list.
Proof.
  revert s. induction p as [|a p IH]; intros s; cbn.
  - intros [= ->]. reflexivity.
  - destruct s as [|b s]; [discriminate|].
    destruct (Ascii.eqb_spec a b) as [->|]; [|discriminate].
    intros H. rewrite (IH _ H). reflexivity.
Qed.

(** [split_once] cuts at the first occurrence of the separator, and leaves
    a string without occurrence whole. *)
Lemma split_once_spec (sep s before : list ascii) :
  sep ≠ [] →
  (∃ a b, s = (a ++ sep ++ b)%list
          ∧ (∀ a' b', a ≠ (a' ++ sep ++ b')%list)
          ∧ split_once sep s before = [(rev before ++ a)%list; b])
  ∨ ((∀ a b, s ≠ (a ++ sep ++ b)%list) ∧ split_once sep s before = [(rev before ++ s)%list]).
Proof.
  intros Hsep.
  assert (Hnil : ∀ a b : list ascii, [] ≠ (a ++ sep ++ b)%list).
  { intros a b H. symmetry in H. apply app_eq_nil in H as [_ H].
    apply app_eq_nil in H as [H _]. contradiction. }
  revert before. induction s as [|c s IH]; intros before.
  - right. split; [exact Hnil|].
    cbn. destruct sep; [contradiction|]. cbn. rewrite app_nil_r. reflexivity.
  - cbn [split_once]. destruct (strip_prefix sep (c :: s)) as [after|] eqn:Hp.
    + left. exists [], after. rewrite app_nil_r.
      split; [exact (strip_prefix_Some _ _ _ Hp)|]. split; [exact Hnil | reflexivity].
    + destruct (IH (c :: before)) as [(a & b & -> & Hfirst & Hsplit) | [Hno Hsplit]].
      * left. exists (c :: a), b. split; [reflexivity|]. split.
        -- intros [|c' a'] b' H.
           ++ cbn in H. rewrite app_comm_cons, H, <- app_assoc, strip_prefix_app in Hp.
              discriminate.
           ++ injection H as _ H. exact (Hfirst _ _ H).
        -- rewrite Hsplit. cbn. rewrite <- app_assoc. reflexivity.
      * right. split.
        -- intros [|c' a] b H.
           ++ cbn in H. rewrite H, strip_prefix_app in Hp. discriminate.
           ++ injection H as _ H. exact (Hno _ _ H).
        -- rewrite Hsplit. cbn. rewrite <- app_assoc. reflexivity.
Qed.

Lemma replace_colons_no_colon (s : list ascii) : ":"%char ∉ replace_colons s.
Proof.
  unfold replace_colons. intros (c & Hc & _)%list_elem_of_fmap.
  destruct (Ascii.eqb_spec c ":") as [Heq|Hne]; [discriminate | congruence].
Qed.

Lemma replace_colons_id (s : list ascii) : ":"%char ∉ s → replace_colons s = s.
Proof.
  unfold replace_colons. induction s as [|c s IH]; intros Hs; [reflexivity|].
  cbn. destruct (Ascii.eqb_spec c ":") as [Heq|Hne].
  - exfalso. apply Hs. rewrite Heq. left.
  - f_equal. apply IH. intros H. apply Hs. right. exact H.
Qed.

(** X19. The table [_write_to_bq] loads into is the part of the URI after
    its first ["://"] with every colon turned into a dot, so it holds no
    colon; a URI without ["://"] is an [IndexError]. *)
Theorem write_table_id_cases (uri : list ascii) :
  (∃ a b, uri = (a ++ chars "://" ++ b)%list
          ∧ (∀ a' b', a ≠ (a' ++ chars "://" ++ b')%list)
          ∧ write_table_id uri = Ok (replace_colons b)
          ∧ ":"%char ∉ replace_colons b)
  ∨ ((∀ a b, uri ≠ (a ++ chars "://" ++ b)%list)
     ∧ write_table_id uri = Raise IndexError).
Proof.
  unfold write_table_id.
  destruct (split_once_spec (chars "://") uri [])
    as [(a & b & -> & Hfirst & Hsplit) | [Hno Hsplit]]; [discriminate | |].
  - left. exists a, b. rewrite Hsplit.
    split; [reflexivity|]. split; [exact Hfirst|].
    split; [reflexivity | apply replace_colons_no_colon].
  - right. split; [exact Hno|]. rewrite Hsplit. reflexivity.
Qed.

Example write_table_id_examples :
  write_table_id (chars "bq://proj:ds.tbl") = Ok (chars "proj.ds.tbl")
  ∧ write_table_id (chars "proj:ds.tbl") = Raise IndexError
  ∧ write_table_id (chars "bq://a://b:c") = Ok (chars "a.//b.c").
Proof. repeat split; vm_compute; reflexivity. Qed.

Lemma re_split_plain (x s piece : list ascii) :
  plain x → re_split (x ++ s) piece = re_split s (rev x ++ piece).
Proof.
  intros Hx. revert piece. induction Hx as [|c x (Hdot & Hcolon & _) _ IH]; intros piece.
  - reflexivity.
  - cbn [app re_split].
    destruct (Ascii.eqb_spec c ".") as [|_]; [contradiction|].
    destruct (Ascii.eqb_spec c ":") as [|_]; [contradiction|].
    rewrite IH. cbn [rev]. rewrite <- app_assoc. reflexivity.
Qed.

Lemma re_split_colon (r piece : list ascii) :
  (∀ c r', r = c :: r' → c ≠ "/"%char) →
  re_split (":"%char :: r) piece = rev piece :: re_split r [].
Proof.
  intros Hr. cbn [re_split].
  change (Ascii.eqb ":" ".") with false. change (Ascii.eqb ":" ":") with true. cbv iota.
  destruct r as [|c1 [|c2 r2]]; [reflexivity | reflexivity |].
  destruct (Ascii.eqb_spec c1 "/") as [Heq|_]; [|reflexivity].
  exfalso. exact (Hr _ _ eq_refl Heq).
Qed.

Lemma plain_head (x rest : list ascii) (c0 : ascii) :
  plain x → c0 ≠ "/"%char →
  ∀ c r', (x ++ c0 :: rest)%list = c :: r' → c ≠ "/"%char.
Proof.
  intros Hx Hc0 c r' H. destruct Hx as [|c1 x (_ & _ & Hslash) _]; cbn in H.
  - injection H as <- _. exact Hc0.
  - injection H as <- _. exact Hslash.
Qed.

Lemma plain_no_colon (x : list ascii) : plain x → ":"%char ∉ x.
Proof.
  intros Hx Hin. unfold plain in Hx. rewrite Forall_forall in Hx.
  destruct (Hx _ Hin) as (_ & Hcolon & _). congruence.
Qed.

Lemma split_once_eq (sep s before : list ascii) :
  split_once sep s before
  = match strip_prefix sep s with
    | Some after => [rev before; after]
    | None =>
        match s with
        | [] => [rev before]
        | c :: s' => split_once sep s' (c :: before)
        end
    end.
Proof. destruct s; reflexivity. Qed.

Lemma split_once_scheme (x rest before : list ascii) :
  ":"%char ∉ x →
  split_once (chars "://") (x ++ chars "://" ++ rest) before
  = [(rev before ++ x)%list; rest].
Proof.
  revert before. induction x as [|c x IH]; intros before Hx; rewrite split_once_eq.
  - cbn [app]. rewrite strip_prefix_app, app_nil_r. reflexivity.
  - change (strip_prefix (chars "://") ((c :: x) ++ chars "://" ++ rest))
      with (if Ascii.eqb ":" c
            then strip_prefix (chars "//") (x ++ chars "://" ++ rest) else None).
    destruct (Ascii.eqb_spec ":" c) as [Heq|_].
    + exfalso. apply Hx. rewrite <- Heq. left.
    + cbn [app]. rewrite IH by (intros H; apply Hx; right; exact H).
      cbn [rev]. rewrite <- app_assoc. reflexivity.
Qed.

Lemma re_split_uri (scheme project dataset tbl : list ascii) :
  plain scheme → plain project → plain dataset → plain tbl →
  re_split (scheme ++ chars "://" ++ project ++ chars ":" ++ dataset ++ chars "." ++ tbl) []
  = [scheme; project; dataset; tbl].
Proof.
  intros Hs Hp Hd Ht.
  rewrite (re_split_plain scheme) by exact Hs. rewrite app_nil_r.
  change (re_split (chars "://" ++ project ++ chars ":" ++ dataset ++ chars "." ++ tbl)
            (rev scheme))
    with (rev (rev scheme)
          :: re_split (project ++ chars ":" ++ dataset ++ chars "." ++ tbl) []).
  rewrite rev_involutive. f_equal.
  rewrite (re_split_plain project) by exact Hp. rewrite app_nil_r.
  change (chars ":" ++ dataset ++ chars "." ++ tbl)%list
    with (":"%char :: (dataset ++ "."%char :: tbl))%list.
  rewrite re_split_colon by (apply plain_head; [exact Hd | discriminate]).
  rewrite rev_involutive. f_equal.
  rewrite (re_split_plain dataset) by exact Hd. rewrite app_nil_r.
  change (re_split ("."%char :: tbl) (rev dataset))
    with (rev (rev dataset) :: re_split tbl []).
  rewrite rev_involutive. f_equal.
  rewrite <- (app_nil_r tbl) at 1. rewrite (re_split_plain tbl) by exact Ht.
  cbn [re_split]. rewrite app_nil_r, rev_involutive. reflexivity.
Qed.

(** X20. The writer and the reader address the same table. For a URI
    [scheme://project:dataset.table] whose four parts hold none of [.],
    [:] and [/], [_write_to_bq] loads into [project.dataset.table] and
    [_read_from_bq] opens its session on
    [projects/project/datasets/dataset/tables/table] under the parent
    [projects/project]. *)
Theorem bigquery_same_table (scheme project dataset tbl : list ascii)
    (columns : list string) :
  plain scheme → plain project → plain dataset → plain tbl →
  let uri := (scheme ++ chars "://" ++ project ++ chars ":" ++ dataset
              ++ chars "." ++ tbl)%list in
  write_table_id uri = Ok (project ++ chars "." ++ dataset ++ chars "." ++ tbl)%list
  ∧ read_session uri columns
    = Ok {| parent := (chars "projects/" ++ project)%list;
            table := (chars "projects/" ++ project ++ chars "/datasets/" ++ dataset
                      ++ chars "/tables/" ++ tbl)%list;
            selected_fields := match columns with [] => None | _ :: _ => Some columns end |}.
Proof.
  intros Hs Hp Hd Ht uri. split.
  - unfold write_table_id, uri.
    rewrite split_once_scheme by (apply plain_no_colon; exact Hs).
    change 1 with (Z.of_nat 1). rewrite seq_getitem_nat.
    cbn [lookup list_lookup mbind result_bind]. f_equal.
    unfold replace_colons. rewrite !fmap_app.
    fold (replace_colons project) (replace_colons dataset) (replace_colons tbl).
    rewrite (replace_colons_id project), (replace_colons_id dataset),
      (replace_colons_id tbl) by (apply plain_no_colon; assumption).
    reflexivity.
  - unfold read_session, read_table_ref, uri.
    rewrite re_split_uri by assumption. reflexivity.
Qed.

Lemma bigquery_same_table_witness :
  write_table_id (chars "bq://proj:ds.tbl") = Ok (chars "proj.ds.tbl")
  ∧ read_session (chars "bq://proj:ds.tbl") ["x"; "y"]
    = Ok {| parent := chars "projects/proj";
            table := chars "projects/proj/datasets/ds/tables/tbl";
            selected_fields := Some ["x"; "y"] |}.
Proof.
  apply (bigquery_same_table (chars "bq") (chars "proj") (chars "ds") (chars "tbl")
           ["x"; "y"]);
    repeat constructor; discriminate.
Defined.

Lemma Forall_rev_list {A} (P : A → Prop) (l : list A) : Forall P l → Forall P (rev l).
Proof.
  rewrite !Forall_forall. intros H x Hx. apply H.
  apply list_elem_of_In. apply in_rev. apply list_elem_of_In. exact Hx.
Qed.

Lemma re_split_pieces (n : nat) (s piece : list ascii) :
  (length s ≤ n)%nat →
  Forall (λ c, c ≠ "."%char ∧ c ≠ ":"%char) piece →
  Forall (Forall (λ c, c ≠ "."%char ∧ c ≠ ":"%char)) (re_split s piece).
Proof.
  revert s piece. induction n as [|n IH]; intros s piece Hlen Hpiece.
  - destruct s; [|cbn in Hlen; lia].
    cbn. constructor; [apply Forall_rev_list; exact Hpiece | constructor].
  - destruct s as [|c r]; cbn [re_split].
    + constructor; [apply Forall_rev_list; exact Hpiece | constructor].
    + cbn in Hlen. destruct (Ascii.eqb_spec c ".") as [_|Hdot].
      * constructor; [apply Forall_rev_list; exact Hpiece|].
        apply IH; [lia | constructor].
      * destruct (Ascii.eqb_spec c ":") as [_|Hcolon].
        -- destruct r as [|c1 [|c2 r2]].
           ++ constructor; [apply Forall_rev_list; exact Hpiece|].
              apply IH; [cbn; lia | constructor].
           ++ constructor; [apply Forall_rev_list; exact Hpiece|].
              apply IH; [cbn in *; lia | constructor].
           ++ destruct (Ascii.eqb c1 "/" && Ascii.eqb c2 "/");
                (constructor; [apply Forall_rev_list; exact Hpiece|]);
                (apply IH; [cbn in *; lia | constructor]).
        -- apply IH; [lia|]. constructor; [split; assumption | exact Hpiece].
Qed.

(** X21. Whatever the path, the project, dataset and table that
    [_read_from_bq] reads off it hold neither a dot nor a colon: a table
    whose name has one is not addressed by any path (more than four pieces
    make the unpacking fail). *)
Theorem read_table_ref_parts (path project dataset tbl : list ascii) :
  read_table_ref path = Ok (project, dataset, tbl) →
  Forall (λ c, c ≠ "."%char ∧ c ≠ ":"%char) project
  ∧ Forall (λ c, c ≠ "."%char ∧ c ≠ ":"%char) dataset
  ∧ Forall (λ c, c ≠ "."%char ∧ c ≠ ":"%char) tbl.
Proof.
  unfold read_table_ref.
  pose proof (re_split_pieces (length path) path [] (le_n _) (Forall_nil_2 _)) as Hall.
  destruct (re_split path []) as [|x0 [|x1 [|x2 [|x3 [|x4 l]]]]]; try discriminate.
  intros [= <- <- <-].
  inversion Hall as [|? ? _ H1]; subst. inversion H1 as [|? ? Hp H2]; subst.
  inversion H2 as [|? ? Hd H3]; subst. inversion H3 as [|? ? Ht _]; subst.
  auto.
Qed.

Lemma read_table_ref_parts_witness :
  Forall (λ c, c ≠ "."%char ∧ c ≠ ":"%char) (chars "proj")
  ∧ Forall (λ c, c ≠ "."%char ∧ c ≠ ":"%char) (chars "ds")
  ∧ Forall (λ c, c ≠ "."%char ∧ c ≠ ":"%char) (chars "tbl").
Proof.
  apply (read_table_ref_parts (chars "bq://proj:ds.tbl")). vm_compute. reflexivity.
Defined.

Example read_table_ref_examples :
  read_table_ref (chars "bq://proj.ds.tbl") = Ok (chars "proj", chars "ds", chars "tbl")
  ∧ read_table_ref (chars "bq://proj:ds.tbl.v2") = Raise ValueError
  ∧ read_table_ref (chars "proj:ds.tbl") = Raise ValueError.
Proof. repeat split; vm_compute; reflexivity. Qed.

End BigQueryFacts.

(** ** The further properties at concrete tasks *)

Lemma raw_execute_empty_batch_witness :
  _raw_execute variable_of (mapper add) no_state (kw1 "a" (ints [])) []
  = ([], Ok (VList [])).
Proof.
  apply (raw_execute_empty_batch variable_of add None no_state (kw1 "a" (ints []))
           "a" int [("b", int)] (ints []) []); run.
Defined.

Lemma raw_execute_missing_input_witness :
  ∃ e, _raw_execute variable_of (mapper add) no_state (kw1 "a" (ints [1])) []
       = ([], Raise e).
Proof.
  apply (raw_execute_missing_input variable_of add None no_state (kw1 "a" (ints [1]))
           "a" int [("b", int)] "b").
  - reflexivity.
  - cbn. right. left.
  - run.
  - intros c Hc. vm_compute in Hc. injection Hc as <-. discriminate.
Defined.

Lemma raw_execute_reads_declared_inputs_only_witness :
  _raw_execute variable_of (mapper double_tuple) no_state (kw1 "a" (ints [1; 2; 3])) []
  = _raw_execute variable_of (mapper double_tuple) no_state
      (<["verbose" := VNone]> (kw1 "a" (ints [1; 2; 3]))) [].
Proof.
  apply raw_execute_reads_declared_inputs_only.
  intros key Hkey. in_names Hkey. run.
Defined.

Lemma raw_execute_returned_shape_witness :
  ∃ outs, length outs = 2%nat
          ∧ Forall (λ acc, length acc = 3%nat) outs
          ∧ ((∃ acc, outs = [acc]
                     ∧ VTuple [ints [1; 2; 3]; ints [101; 102; 103]] = VList acc)
             ∨ (2%nat ≠ 1%nat
                ∧ VTuple [ints [1; 2; 3]; ints [101; 102; 103]] = VTuple (VList <$> outs))).
Proof.
  apply (raw_execute_returned_shape variable_of both None no_state
           (kw1 "a" (ints [1; 2; 3])) "a" int [] (ints [1; 2; 3]) 3
           (VTuple [ints [1; 2; 3]; ints [101; 102; 103]])
           [] [kw1 "a" (VInt 1); kw1 "a" (VInt 2); kw1 "a" (VInt 3)]); run.
Defined.

Lemma raw_execute_success_calls_witness :
  ∃ rws os,
    Forall2 (λ p row, index_inputs ["a"] (kw1 "a" (ints [1; 2; 3])) p ∅ = Ok row)
      (range 3) rws
    ∧ execute_each both rws [] = ([kw1 "a" (VInt 1); kw1 "a" (VInt 2); kw1 "a" (VInt 3)], Ok os)
    ∧ length os = 3%nat.
Proof.
  apply (raw_execute_success_calls variable_of both None no_state
           (kw1 "a" (ints [1; 2; 3])) "a" int [] (ints [1; 2; 3]) 3
           (VTuple [ints [1; 2; 3]; ints [101; 102; 103]])); run.
Defined.

Lemma execute_fails_before_call_witness :
  execute variable_of (mapper double) (in_state TASK_EXECUTION) ∅
    (kw1 "a" (ints [1; 2; 3])) [] = ([], Raise TypeError)
  ∧ ∃ e, execute variable_of (mapper double) (in_state TASK_EXECUTION) environ_1
           (kw1 "b" (ints [1; 2; 3])) [] = ([], Raise e).
Proof.
  split.
  - apply (proj1 (execute_fails_before_call variable_of double None
                    (in_state TASK_EXECUTION) ∅ (kw1 "a" (ints [1; 2; 3])) [] eq_refl)).
    run.
  - apply (proj2 (execute_fails_before_call variable_of double None
                    (in_state TASK_EXECUTION) environ_1 (kw1 "b" (ints [1; 2; 3])) []
                    eq_refl) 1 "a").
    + run.
    + cbn. left.
    + run.
Defined.

Lemma execute_map_task_index_out_of_range_witness :
  _execute_map_task variable_of (mapper double) environ_B (kw1 "a" (ints [1; 2; 3])) []
  = ([], Raise IndexError).
Proof.
  apply (execute_map_task_index_out_of_range variable_of double None environ_B
           (kw1 "a" (ints [1; 2; 3])) (λ _, VInt <$> [1; 2; 3]) 11).
  - run.
  - intros key Hkey. in_names Hkey. run.
  - exists "a". split; [cbn; left | cbn; lia].
Defined.

Lemma execute_map_task_negative_index_witness :
  _execute_map_task variable_of (mapper double) environ_last (kw1 "a" (ints [1; 2; 3])) []
  = _execute_map_task variable_of (mapper double) environ_2 (kw1 "a" (ints [1; 2; 3])) [].
Proof.
  apply (execute_map_task_negative_index variable_of double None environ_last environ_2
           (kw1 "a" (ints [1; 2; 3])) (λ _, VInt <$> [1; 2; 3]) 3 (-1)).
  - run.
  - run.
  - lia.
  - intros key Hkey. in_names Hkey. split; run.
Defined.

Lemma local_run_collects_slot_results_witness :
  ∃ o, _execute_map_task variable_of (mapper both_pure) environ_1
         (kw1 "a" (ints [1; 2; 3])) [] = ([], Ok o)
       ∧ (outputs (python_interface both_pure) ≠ [] →
          ∀ (j : nat) acc,
            [VInt <$> [1; 2; 3]; VInt <$> [101; 102; 103]] !! j = Some acc →
            ∃ v, py_getitem o (Z.of_nat j) = Ok v ∧ acc !! 1%nat = Some v).
Proof.
  apply (local_run_collects_slot_results variable_of both_pure None no_state environ_1
           (kw1 "a" (ints [1; 2; 3])) "a" int [] (ints [1; 2; 3]) 3 1 both_fn
           [VInt <$> [1; 2; 3]; VInt <$> [101; 102; 103]] [] []).
  - intros row st0. reflexivity.
  - reflexivity.
  - run.
  - reflexivity.
  - run.
  - lia.
  - run.
Defined.
